(** * AirMaster AM7p bridge: shallow embedding of [am7p_bridge.py]

    The bridge receives UDP datagrams from AM7p air-quality monitors, decodes
    them ([parse_packet]) and republishes them over MQTT, together with a
    periodic liveness report per device.

    Conventions of the embedding.
    - [bytes] objects are lists of [byte]; Python [int] is [Z].
    - Python [float] values (the scaled measurement fields and the readings
      of [time.time()]) are represented by the rational number they denote,
      in [Q].  Every floating-point operation of the source rounds its exact
      result to the nearest binary64 number, ties to even ([Binary64.round]);
      the exponent range is not bounded, so overflow to infinity is not
      modelled (clock readings and measurements are far from it, and a sum or
      a difference of two binary64 numbers never underflows).
    - The MQTT client and the UDP socket are external objects.  A call of
      [client.publish] is recorded, in order, as an [effect]; it returns
      normally.  What the socket delivers and what the clock reads are inputs
      of the main loop. *)

From Stdlib Require Import ZArith QArith Qround Qabs Qpower Lia Lqa String Ascii List
  DecimalString.
From Stdlib Require PrimFloat FloatOps SpecFloat Uint63.
From Stdlib.Strings Require Import Byte.
From stdpp Require Import base option list strings gmap.

Local Open Scope Z_scope.

(** ** Exceptions and outcomes *)

Inductive exn : Type :=
| StructError   (* struct.error: buffer too small for the format *)
| IndexError.   (* tuple index out of range *)

(** What a call of a Python function does: return a value or raise. *)
Inductive outcome (A : Type) : Type :=
| Returned (a : A)
| Raised (e : exn).
Arguments Returned {A} a.
Arguments Raised {A} e.

Definition bind_outcome {A B : Type} (o : outcome A) (k : A -> outcome B) : outcome B :=
  match o with
  | Returned a => k a
  | Raised e => Raised e
  end.

(** ** Binary64 arithmetic *)

Module Binary64.

Local Open Scope Q_scope.

(** [floor (log2 |x|)], for [x] other than zero. *)
Definition ilog2 (x : Q) : Z :=
  let k := (Z.log2 (Z.abs (Qnum x)) - Z.log2 (Z.pos (Qden x)))%Z in
  if Qle_bool (2 ^ k) (Qabs x) then k else (k - 1)%Z.

(** Rounding to the nearest integer, ties to the even one. *)
Definition rne (x : Q) : Z :=
  let f := Qfloor x in
  match Qcompare (x - inject_Z f)%Q (1 # 2)%Q with
  | Lt => f
  | Gt => (f + 1)%Z
  | Eq => if Z.even f then f else (f + 1)%Z
  end.

(** A positive number rounded to 53 significant bits: with
    [2^e <= x < 2^(e+1)] the result is the multiple of [2^(e-52)] nearest to
    [x], ties to the even multiple. *)
Definition round_pos (x : Q) : Q :=
  let e := (ilog2 x - 52)%Z in
  inject_Z (rne (x / 2 ^ e)) * 2 ^ e.

(** Rounding to the nearest binary64 number, ties to even. *)
Definition round (x : Q) : Q :=
  match Qcompare x 0 with
  | Eq => 0
  | Gt => round_pos x
  | Lt => - round_pos (- x)
  end.

(** [a / b] on two Python [int]s: the quotient, correctly rounded. *)
Definition div_int (a b : Z) : Q := round (inject_Z a / inject_Z b).

(** [float(n)] for a Python [int]. *)
Definition of_int (n : Z) : Q := round (inject_Z n).

(** [a - b] on two floats. *)
Definition sub (a b : Q) : Q := round (a - b).

(** [a + n] for a float and a Python [int]: the [int] is converted first. *)
Definition add_int (a : Q) (n : Z) : Q := round (a + of_int n).

(** The same operations on Rocq's primitive binary64 numbers, to compare
    with. *)
Definition float_of_Z (z : Z) : PrimFloat.float :=
  if (z <? 0)%Z then PrimFloat.opp (PrimFloat.of_uint63 (Uint63.of_Z (- z)))
  else PrimFloat.of_uint63 (Uint63.of_Z z).

(** The rational number that a finite primitive float denotes. *)
Definition Q_of_float (f : PrimFloat.float) : option Q :=
  match FloatOps.Prim2SF f with
  | SpecFloat.S754_zero _ => Some 0
  | SpecFloat.S754_finite s m e =>
      Some ((if s then - inject_Z (Z.pos m) else inject_Z (Z.pos m)) * 2 ^ e)
  | _ => None
  end.

(** [a / b] on two Python [int]s, computed by the primitive division. *)
Definition prim_div_int (a b : Z) : option Q :=
  Q_of_float (PrimFloat.div (float_of_Z a) (float_of_Z b)).

End Binary64.

(** ** [struct.unpack_from] with a format [">H...H"] *)

Module Struct.

(** The value of one byte, 0..255. *)
Definition u8 (b : byte) : Z := Z.of_N (Byte.to_N b).

(** [struct.unpack_from(">" + "H" * count, buf)]: [count] unsigned 16-bit
    big-endian integers from the start of [buf]; [struct.error] when the
    buffer holds fewer than [2 * count] bytes. *)
Fixpoint unpack_from (count : nat) (buf : list byte) : outcome (list Z) :=
  match count with
  | O => Returned []
  | S k =>
      match buf with
      | hi :: lo :: rest =>
          bind_outcome (unpack_from k rest)
            (fun xs => Returned ((256 * u8 hi + u8 lo) :: xs))
      | _ => Raised StructError
      end
  end.

(** The byte with value [z mod 256]. *)
Definition byte_of_Z (z : Z) : byte :=
  match Byte.of_N (Z.to_N (z mod 256)) with
  | Some b => b
  | None => x00
  end.

(** [struct.pack(">H", x)] for [0 <= x < 65536]: high byte first. *)
Definition pack_H (x : Z) : list byte := [byte_of_Z (x / 256); byte_of_Z x].

(** [struct.pack(">" + "H" * len(xs), *xs)]. *)
Definition pack (xs : list Z) : list byte := flat_map pack_H xs.

End Struct.

(** [x[i]] on a tuple. *)
Definition item (x : list Z) (i : nat) : outcome Z :=
  match x !! i with
  | Some v => Returned v
  | None => Raised IndexError
  end.

(** ** The decoder *)

(** The dictionary built by [parse_packet].  The keys are fixed, so it is a
    record; [x / 100] is Python's true division of two [int]s, which returns
    the binary64 number nearest to the quotient. *)
Record Measurement : Type := {
  pm25 : Z;
  pm10 : Z;
  hcho : Q;
  tvoc : Q;
  co2 : Z;
  temperature : Q;
  humidity : Q
}.

Definition parse_packet (data : list byte) : outcome (option Measurement) :=
  (* Minimum length guard: offset 23 + 7*2 bytes = 14 *)
  if Z.of_nat (length data) <? 23 + 14 then Returned None
  else
    bind_outcome (Struct.unpack_from 7 (drop 23 data)) (fun x =>
    bind_outcome (item x 0) (fun x0 =>
    bind_outcome (item x 1) (fun x1 =>
    bind_outcome (item x 2) (fun x2 =>
    bind_outcome (item x 3) (fun x3 =>
    bind_outcome (item x 4) (fun x4 =>
    bind_outcome (item x 5) (fun x5 =>
    bind_outcome (item x 6) (fun x6 =>
    Returned (Some {|
      pm25 := x0;
      pm10 := x1;
      hcho := Binary64.div_int x2 100;
      tvoc := Binary64.div_int x3 100;
      co2 := x4;
      temperature := Binary64.div_int (x5 - 3500) 100;
      humidity := Binary64.div_int x6 100
    |}))))))))).

(** ** JSON values and Python dictionaries *)

(** The values that are passed to [json.dumps]. *)
#[local] Unset Elimination Schemes.
Inductive json : Type :=
| JStr (s : string)
| JInt (z : Z)
| JFloat (q : Q)
| JList (l : list json)
| JDict (d : list (string * json)).
#[local] Set Elimination Schemes.

(** A [dict] with string keys, in insertion order. *)
Abbreviation pydict := (list (string * json)).

(** [d.get(key)]. *)
Fixpoint dict_get (key : string) (d : pydict) : option json :=
  match d with
  | [] => None
  | (k, v) :: rest => if String.eqb k key then Some v else dict_get key rest
  end.

(** [d[key] = v]: an existing key keeps its position, a new one goes last. *)
Fixpoint dict_set (key : string) (v : json) (d : pydict) : pydict :=
  match d with
  | [] => [(key, v)]
  | (k, w) :: rest =>
      if String.eqb k key then (k, v) :: rest else (k, w) :: dict_set key v rest
  end.

(** [d.update(other)]. *)
Definition dict_update (d other : pydict) : pydict :=
  fold_left (fun acc kv => dict_set (fst kv) (snd kv) acc) other d.

(** Truth value of the result of [d.get(key)]: [None] and empty values are
    false. *)
Definition truthy (o : option json) : bool :=
  match o with
  | None => false
  | Some (JStr s) => negb (String.eqb s "")
  | Some (JInt z) => negb (z =? 0)
  | Some (JFloat q) => negb (Qnum q =? 0)
  | Some (JList l) => negb (Nat.eqb (length l) 0)
  | Some (JDict d) => negb (Nat.eqb (length d) 0)
  end.

(** The text of a string value inside an f-string. *)
Definition str_of (o : option json) : string :=
  match o with
  | Some (JStr s) => s
  | _ => ""
  end.

(** [s.lower()] and [s.replace(" ", "_")] on ASCII text. *)
Definition lower_ascii (c : ascii) : ascii :=
  let n := nat_of_ascii c in
  if (Nat.leb 65 n && Nat.leb n 90)%bool then ascii_of_nat (n + 32) else c.

Fixpoint map_string (f : ascii -> ascii) (s : string) : string :=
  match s with
  | EmptyString => EmptyString
  | String c rest => String (f c) (map_string f rest)
  end.

Definition lower (s : string) : string := map_string lower_ascii s.

Definition replace_space (s : string) : string :=
  map_string (fun c => if Ascii.eqb c " " then "_"%char else c) s.

(** [str(n)] for a Python [int]. *)
Definition str_int (n : Z) : string := NilZero.string_of_int (Z.to_int n).

(** ** Topics *)

Definition CONFIG_TOPIC_SENSOR (uid : string) : string :=
  "homeassistant/sensor/" ++ uid ++ "/config".
Definition CONFIG_TOPIC_BIN (uid : string) : string :=
  "homeassistant/binary_sensor/" ++ uid ++ "/config".

(** JSON measurements *)
Definition STATE_TOPIC_FORMAT (name : string) : string :=
  "homeassistant/sensor/" ++ name ++ "/state".
(** seconds since last packet *)
Definition META_TOPIC_FORMAT (name : string) : string :=
  "homeassistant/sensor/" ++ name ++ "/last_packet_s".
(** "ON"/"OFF" *)
Definition ONLINE_TOPIC_FORMAT (name : string) : string :=
  "homeassistant/binary_sensor/" ++ name ++ "/online".

Definition SENSORS : list pydict := [
  [ ("name", JStr "PM2.5");
    ("device_class", JStr "pm25");
    ("unit_of_measurement", JStr "µg/m³");
    ("value_template", JStr "{{ value_json.pm25 }}") ];
  [ ("name", JStr "PM10");
    ("device_class", JStr "pm10");
    ("unit_of_measurement", JStr "µg/m³");
    ("value_template", JStr "{{ value_json.pm10 }}") ];
  [ ("name", JStr "HCHO");
    ("unique_id", JStr "hcho");
    ("device_class", JStr "volatile_organic_compounds");
    ("unit_of_measurement", JStr "mg/m³");
    ("value_template", JStr "{{ value_json.hcho }}") ];
  [ ("name", JStr "TVOC");
    ("unique_id", JStr "tvoc");
    ("device_class", JStr "volatile_organic_compounds");
    ("unit_of_measurement", JStr "mg/m³");
    ("value_template", JStr "{{ value_json.tvoc }}") ];
  [ ("name", JStr "CO2");
    ("unique_id", JStr "co2");
    ("device_class", JStr "carbon_dioxide");
    ("unit_of_measurement", JStr "ppm");
    ("value_template", JStr "{{ value_json.co2 }}") ];
  [ ("name", JStr "Temperature");
    ("device_class", JStr "temperature");
    ("unit_of_measurement", JStr "°C");
    ("value_template", JStr "{{ value_json.temperature }}") ];
  [ ("name", JStr "Humidity");
    ("device_class", JStr "humidity");
    ("unit_of_measurement", JStr "%");
    ("value_template", JStr "{{ value_json.humidity }}") ]
].

(** ** What the bridge does to the outside world *)

(** What is sent as the payload of a message. *)
Inductive payload : Type :=
| Dumps (v : json)     (* json.dumps(v) *)
| Text (s : string).

Inductive effect : Type :=
| Publish (topic : string) (body : payload) (retain : bool)  (* client.publish *)
| SockClose                                                  (* sock.close() *)
| LoopStop.                                                  (* client.loop_stop() *)

Definition topic_of (e : effect) : option string :=
  match e with
  | Publish t _ _ => Some t
  | _ => None
  end.

(** The dictionary of [parse_packet] as a JSON value. *)
Definition json_of_measurement (m : Measurement) : json :=
  JDict [ ("pm25", JInt (pm25 m));
          ("pm10", JInt (pm10 m));
          ("hcho", JFloat (hcho m));
          ("tvoc", JFloat (tvoc m));
          ("co2", JInt (co2 m));
          ("temperature", JFloat (temperature m));
          ("humidity", JFloat (humidity m)) ].

Definition device_block (name : string) : json :=
  JDict [ ("identifiers", JList [JStr ("airmaster_" ++ name)%string]);
          ("name", JStr name) ].

(** The body of the loop over [SENSORS] in [publish_discovery].  Each entry of
    [SENSORS] has a "name", so [cfg["name"]] does not raise. *)
Definition publish_sensor_config (name : string) (sensor : pydict) : effect :=
  let state_topic := STATE_TOPIC_FORMAT name in
  let cfg := sensor in
  let unique_part :=
    if truthy (dict_get "unique_id" cfg) then str_of (dict_get "unique_id" cfg)
    else if truthy (dict_get "device_class" cfg) then str_of (dict_get "device_class" cfg)
    else replace_space (lower (str_of (dict_get "name" cfg))) in
  let uid := (name ++ "_" ++ unique_part)%string in
  let cfg := dict_update cfg [ ("state_topic", JStr state_topic);
                               ("unique_id", JStr uid);
                               ("device", device_block name) ] in
  Publish (CONFIG_TOPIC_SENSOR uid) (Dumps (JDict cfg)) true.

Definition publish_discovery (name : string) : list effect :=
  (* Measurement sensors (JSON state) *)
  map (publish_sensor_config name) SENSORS ++
  (* Online binary sensor *)
  let online_uid := (name ++ "_online")%string in
  let online_cfg :=
    [ ("name", JStr "Online");
      ("unique_id", JStr online_uid);
      ("device_class", JStr "connectivity");
      ("state_topic", JStr (ONLINE_TOPIC_FORMAT name));
      ("payload_on", JStr "ON");
      ("payload_off", JStr "OFF");
      ("device", device_block name) ] in
  (* Seconds since last packet *)
  let last_uid := (name ++ "_last_packet_s")%string in
  let last_cfg :=
    [ ("name", JStr "Seconds since last packet");
      ("unique_id", JStr last_uid);
      ("state_topic", JStr (META_TOPIC_FORMAT name));
      ("unit_of_measurement", JStr "s");
      ("device_class", JStr "duration");
      ("device", device_block name) ] in
  [ Publish (CONFIG_TOPIC_BIN online_uid) (Dumps (JDict online_cfg)) true;
    Publish (CONFIG_TOPIC_SENSOR last_uid) (Dumps (JDict last_cfg)) true ].

Definition publish_state (name : string) (m : Measurement) : list effect :=
  [ Publish (STATE_TOPIC_FORMAT name) (Dumps (json_of_measurement m)) false ].

Definition publish_meta (name : string) (age_s : Z) (online : bool) : list effect :=
  [ Publish (META_TOPIC_FORMAT name) (Text (str_int age_s)) true;
    Publish (ONLINE_TOPIC_FORMAT name) (Text (if online then "ON" else "OFF")) true ].

Definition get_name_by_ip (ip : string) (addr_to_name : gmap string string) : string :=
  default "am7p" (addr_to_name !! ip).

(** ** Liveness *)

(** [int(x)] for a float: truncation toward zero. *)
Definition int_of_float (x : Q) : Z := Z.quot (Qnum x) (Z.pos (Qden x)).

(** Truth value of a float: false exactly for zero. *)
Definition float_truthy (x : Q) : bool := negb (Qnum x =? 0).

(** The three assignments in the body of the sweep of [main]:
<<
    ts = last_packet_ts.get(name, 0.0)
    age = int(now - ts) if ts else 999999
    online = (ts != 0.0) and (age <= online_timeout_s)
>>
    [lastSeenAt] is the result of the dictionary lookup; [now - ts] is the
    difference of two floats. *)
Definition evaluate (lastSeenAt : option Q) (now : Q) (online_timeout_s : Z) : Z * bool :=
  let ts := default 0%Q lastSeenAt in
  let age := if float_truthy ts then int_of_float (Binary64.sub now ts) else 999999 in
  let online := negb (Qeq_bool ts 0) && (age <=? online_timeout_s) in
  (age, online).

(** The evaluation contract in the words of the design document, to be
    compared with [evaluate]: an absent time stamp gives the sentinel and
    offline; otherwise the age is the floor of the difference, a negative
    difference clamped to zero, and online means the age is within the
    timeout. *)
Definition evaluate_contract (sentinel : Z) (lastSeenAt : option Q) (now : Q)
    (onlineTimeoutSeconds : Z) : Z * bool :=
  match lastSeenAt with
  | None => (sentinel, false)
  | Some t =>
      let ageSeconds := Z.max 0 (Qfloor (now - t)) in
      (ageSeconds, ageSeconds <=? onlineTimeoutSeconds)
  end.

(** ** The bridge loop *)

(** The options read by [main]. *)
Record Options : Type := {
  online_timeout_s : Z;
  meta_publish_every_s : Z;
  addr_to_name : gmap string string
}.

(** The local variables of [main] that the loop updates. *)
Record Bridge : Type := {
  known_names : gset string;
  last_packet_ts : gmap string Q;
  next_meta_ts : Q
}.

(** What [sock.recvfrom(1024)] does in one iteration. *)
Inductive recv : Type :=
| Datagram (data : list byte) (ip : string)
| Timeout          (* socket.timeout *)
| Interrupt        (* KeyboardInterrupt *)
| Failure.         (* any other exception *)

(** Why the loop was left. *)
Inductive stop : Type :=
| Interrupted      (* except KeyboardInterrupt *)
| Fatal.           (* except Exception: ... raise *)

(** The test [name not in known_names]. *)
Definition not_known (name : string) (st : Bridge) : bool :=
  bool_decide (name ∉ known_names st).

(** 1) Receive a packet (or timeout) *)
Definition ingest (opts : Options) (now : Q) (r : recv) (st : Bridge)
    : Bridge * list effect * option stop :=
  match r with
  | Timeout => (st, [], None)
  | Interrupt => (st, [], Some Interrupted)
  | Failure => (st, [], Some Fatal)
  | Datagram data ip =>
      let name := get_name_by_ip ip (addr_to_name opts) in
      match parse_packet data with
      | Raised _ => (st, [], Some Fatal)
      | Returned None => (st, [], None)
      | Returned (Some payload) =>
          let '(known, discovery) :=
            if not_known name st
            then ({[name]} ∪ known_names st, publish_discovery name)
            else (known_names st, []) in
          ({| known_names := known;
              last_packet_ts := <[name := now]> (last_packet_ts st);
              next_meta_ts := next_meta_ts st |},
           discovery ++ publish_state name payload,
           None)
      end
  end.

(** 2) Periodic meta publish (online + age) *)
Definition sweep (opts : Options) (now : Q) (st : Bridge) : Bridge * list effect :=
  if Qle_bool (next_meta_ts st) now then
    ({| known_names := known_names st;
        last_packet_ts := last_packet_ts st;
        next_meta_ts := Binary64.add_int now (meta_publish_every_s opts) |},
     flat_map (fun name =>
                 let '(age, online) :=
                   evaluate (last_packet_ts st !! name) now (online_timeout_s opts) in
                 publish_meta name age online)
              (elements (known_names st)))
  else (st, []).

(** One turn of [while True], with the reading [now] of the clock at its
    start. *)
Definition iteration (opts : Options) (now : Q) (r : recv) (st : Bridge)
    : Bridge * list effect * option stop :=
  match ingest opts now r st with
  | (st1, out1, Some s) => (st1, out1, Some s)
  | (st1, out1, None) =>
      let '(st2, out2) := sweep opts now st1 in (st2, out1 ++ out2, None)
  end.

(** The loop over a finite sequence of clock readings and socket results.  It
    ends at the first exception; [None] means that the sequence is used up
    and the loop is still running. *)
Fixpoint loop (opts : Options) (inputs : list (Q * recv)) (st : Bridge)
    : Bridge * list effect * option stop :=
  match inputs with
  | [] => (st, [], None)
  | (now, r) :: rest =>
      match iteration opts now r st with
      | (st1, out1, Some s) => (st1, out1, Some s)
      | (st1, out1, None) =>
          let '(st2, out2, s) := loop opts rest st1 in (st2, out1 ++ out2, s)
      end
  end.

(** The [finally] block: mark all known devices offline on exit, then close
    the socket and stop the client. *)
Definition finally (st : Bridge) (now : Q) : list effect :=
  flat_map (fun name =>
              let ts := default 0%Q (last_packet_ts st !! name) in
              let age :=
                if float_truthy ts then int_of_float (Binary64.sub now ts) else 999999 in
              publish_meta name age false)
           (elements (known_names st))
  ++ [SockClose; LoopStop].

(** The variables of [main] when the loop is entered at time [start]. *)
Definition initial (opts : Options) (start : Q) : Bridge :=
  {| known_names := ∅;
     last_packet_ts := ∅;
     next_meta_ts := Binary64.add_int start (meta_publish_every_s opts) |}.

(** [main] from the point where the options are read and the client and the
    socket exist: everything the bridge does, and how the loop was left.
    [exit_time] is the reading of the clock in the [finally] block. *)
Definition main (opts : Options) (start : Q) (inputs : list (Q * recv)) (exit_time : Q)
    : list effect * option stop :=
  match loop opts inputs (initial opts start) with
  | (st, out, Some s) => (out ++ finally st exit_time, Some s)
  | (_, out, None) => (out, None)
  end.

(** ** Observations on inputs and effects *)

(** [r] is a datagram that decodes and that is attributed to [name]. *)
Definition decodes_for (opts : Options) (name : string) (r : recv) : bool :=
  match r with
  | Datagram data ip =>
      bool_decide (get_name_by_ip ip (addr_to_name opts) = name)
      && match parse_packet data with
         | Returned (Some _) => true
         | _ => false
         end
  | _ => false
  end.

(** The device that a discovery message describes: the "name" of its
    "device" block.  Other messages have none. *)
Definition device_name_of (e : effect) : option string :=
  match e with
  | Publish _ (Dumps (JDict cfg)) _ =>
      match dict_get "device" cfg with
      | Some (JDict dev) =>
          match dict_get "name" dev with
          | Some (JStr s) => Some s
          | _ => None
          end
      | _ => None
      end
  | _ => None
  end.

(** The messages of a trace that were published on [topic]. *)
Definition on_topic (topic : string) (out : list effect) : list effect :=
  filter (fun e => topic_of e = Some topic) out.

(** The last character of a string. *)
Fixpoint last_char (s : string) : option ascii :=
  match s with
  | EmptyString => None
  | String c rest =>
      match last_char rest with
      | Some c' => Some c'
      | None => Some c
      end
  end.

(** The last character of the topic of a message. *)
Definition topic_end (e : effect) : option ascii :=
  match topic_of e with
  | Some t => last_char t
  | None => None
  end.

(** The "name" entry of a configuration message. *)
Definition label_of (e : effect) : string :=
  match e with
  | Publish _ (Dumps (JDict cfg)) _ => str_of (dict_get "name" cfg)
  | _ => ""
  end.

(** ** Python's [n / 100] *)

(** [v] is what [n / 100] returns for the [int] [n]: the binary64 number
    nearest to the quotient.  It is the quotient itself exactly when [n] is a
    multiple of 25, and it is always within the relative error 2^-53 of it. *)
Definition quotient_by_100 (v : Q) (n : Z) : Prop :=
  (v == Binary64.round (n # 100))%Q
  /\ ((v == n # 100)%Q <-> n mod 25 = 0)
  /\ (Qabs (v - (n # 100)) <= Qabs (n # 100) * (1 # 2 ^ 53))%Q.

(** The binary64 numbers nearest to 0.3 and to 3.3. *)
Definition double_0_3 : Q := 5404319552844595 # 18014398509481984.
Definition double_3_3 : Q := 3715469692580659 # 1125899906842624.

(** ** Concrete data used in examples *)

Definition demo_opts : Options :=
  {| online_timeout_s := 10; meta_publish_every_s := 2;
     addr_to_name := {[ "10.0.0.5"%string := "kitchen"%string ]} |}.

(** Scenario A: 23 header bytes and the payload 10, 20, 150, 250, 800, 3800,
    6000. *)
Definition scenario_A : list byte :=
  repeat x00 23 ++ Struct.pack [10; 20; 150; 250; 800; 3800; 6000].

(** Scenario A with the raw value 7 in the place of 150. *)
Definition scenario_7 : list byte :=
  repeat x00 23 ++ Struct.pack [10; 20; 7; 250; 800; 3800; 6000].

(** The measurement of scenario A. *)
Definition measurement_A : Measurement :=
  {| pm25 := 10; pm10 := 20;
     hcho := Binary64.div_int 150 100; tvoc := Binary64.div_int 250 100;
     co2 := 800;
     temperature := Binary64.div_int 300 100; humidity := Binary64.div_int 6000 100 |}.

(** A run: a timeout, a packet from an address without a name (device
    "am7p"), then "kitchen" sends twice, and the bridge is interrupted. *)
Definition demo_pre : list (Q * recv) :=
  [ (101%Q, Timeout); (102%Q, Datagram scenario_A "10.0.0.6") ].

Definition demo_post : list (Q * recv) :=
  [ (104%Q, Datagram scenario_A "10.0.0.5"); (115%Q, Interrupt) ].

Definition demo_run : list (Q * recv) :=
  demo_pre ++ (103%Q, Datagram scenario_A "10.0.0.5") :: demo_post.

(** The variables after a single packet received when the clock reads 0.0. *)
Definition epoch_state : Bridge :=
  fst (fst (loop demo_opts [(0%Q, Datagram scenario_A "10.0.0.5")]
              (initial demo_opts (-5)))).

(** ** Observations on runs and on configuration messages *)

(** The clock reading of the last input that is a valid packet for [name]. *)
Fixpoint last_valid (opts : Options) (name : string) (inputs : list (Q * recv))
    : option Q :=
  match inputs with
  | [] => None
  | (now, r) :: rest =>
      match last_valid opts name rest with
      | Some t => Some t
      | None => if decodes_for opts name r then Some now else None
      end
  end.

(** The measurements of the valid packets for [name], in the order of
    arrival. *)
Definition measurements_for (opts : Options) (name : string)
    (inputs : list (Q * recv)) : list Measurement :=
  flat_map (fun i =>
              match snd i with
              | Datagram data ip =>
                  if bool_decide (get_name_by_ip ip (addr_to_name opts) = name)
                  then match parse_packet data with
                       | Returned (Some m) => [m]
                       | _ => []
                       end
                  else []
              | _ => []
              end) inputs.

(** The dictionary that a message carries as JSON. *)
Definition config_of (e : effect) : pydict :=
  match e with
  | Publish _ (Dumps (JDict cfg)) _ => cfg
  | _ => []
  end.

(** The retain flag of a message. *)
Definition retained (e : effect) : bool :=
  match e with
  | Publish _ _ r => r
  | _ => false
  end.

(** The keys of a JSON object, in order. *)
Definition keys_of (v : json) : list string :=
  match v with
  | JDict d => map fst d
  | _ => []
  end.

(** * Binary64 rounding *)

Section Rounding.

Import Binary64.
Local Open Scope Q_scope.

Lemma pow2_pos e : 0 < 2 ^ e.
Proof. apply Qpower_0_lt. reflexivity. Qed.

Lemma pow2_nonzero e : ~ 2 ^ e == 0.
Proof. intros H. pose proof (pow2_pos e) as Hp. rewrite H in Hp. discriminate Hp. Qed.

Lemma pow2_plus a b : 2 ^ (a + b) == 2 ^ a * 2 ^ b.
Proof. apply Qpower_plus. discriminate. Qed.

Lemma pow2_inject (k : Z) : (0 <= k)%Z -> 2 ^ k == inject_Z (2 ^ k).
Proof. intros Hk. symmetry. apply (Zpower_Qpower 2 k Hk). Qed.

Lemma pow2_le a b : (a <= b)%Z -> 2 ^ a <= 2 ^ b.
Proof. intros H. apply Qpower_le_compat_l; [exact H | discriminate]. Qed.

Lemma pow2_lt_inv a b : 2 ^ a < 2 ^ b -> (a < b)%Z.
Proof. intros H. apply (Qpower_lt_compat_l_inv 2); [exact H | reflexivity]. Qed.

(** [ilog2] *)

Lemma Zlog2_bounds (n : Z) :
  (0 < n)%Z -> inject_Z (2 ^ Z.log2 n) <= inject_Z n /\ inject_Z n < inject_Z (2 ^ (Z.log2 n + 1)).
Proof.
  intros Hn. pose proof (Z.log2_spec n Hn) as [H1 H2].
  rewrite <- Zle_Qle, <- Zlt_Qlt. rewrite <- Z.add_1_r in H2. split; assumption.
Qed.

Lemma ilog2_spec x : 0 < x -> 2 ^ ilog2 x <= x /\ x < 2 ^ (ilog2 x + 1).
Proof.
  intros Hx. unfold ilog2.
  assert (Hn : (0 < Qnum x)%Z) by (destruct x as [n d]; unfold Qlt in Hx; cbn in *; lia).
  rewrite (Z.abs_eq (Qnum x)) by lia.
  rewrite (Qabs_pos x) by (apply Qlt_le_weak, Hx).
  set (a := Z.log2 (Qnum x)). set (b := Z.log2 (Z.pos (Qden x))).
  destruct (Zlog2_bounds (Qnum x) Hn) as [Ha1 Ha2].
  destruct (Zlog2_bounds (Z.pos (Qden x)) eq_refl) as [Hb1 Hb2].
  fold a in Ha1, Ha2. fold b in Hb1, Hb2.
  assert (Ha0 : (0 <= a)%Z) by apply Z.log2_nonneg.
  assert (Hb0 : (0 <= b)%Z) by apply Z.log2_nonneg.
  rewrite <- !pow2_inject in Ha1, Ha2, Hb1, Hb2 by lia.
  assert (Hxd : x * inject_Z (Z.pos (Qden x)) == inject_Z (Qnum x)).
  { destruct x as [n d]. unfold Qeq, Qmult, inject_Z. cbn. lia. }
  assert (Hd : 0 < inject_Z (Z.pos (Qden x))) by reflexivity.
  destruct (Qle_bool (2 ^ (a - b)) x) eqn:E.
  - apply Qle_bool_iff in E. split; [exact E|].
    (* x * d = n < 2^(a+1) <= 2^(a-b+1) * 2^b <= 2^(a-b+1) * d *)
    apply (Qmult_lt_r _ _ _ Hd). rewrite Hxd.
    eapply Qlt_le_trans; [exact Ha2|].
    replace (a + 1)%Z with ((a - b + 1) + b)%Z by lia. rewrite pow2_plus.
    apply Qmult_le_l; [apply pow2_pos | exact Hb1].
  - assert (E' : x < 2 ^ (a - b)).
    { apply Qnot_le_lt. intros H. apply Qle_bool_iff in H. congruence. }
    replace (a - b - 1 + 1)%Z with (a - b)%Z by lia. split; [|exact E'].
    (* 2^(a-b-1) * d < 2^(a-b-1) * 2^(b+1) = 2^a <= n = x * d *)
    apply Qlt_le_weak. apply (Qmult_lt_r _ _ _ Hd). rewrite Hxd.
    eapply Qlt_le_trans; [|exact Ha1].
    replace a with ((a - b - 1) + (b + 1))%Z at 2 by lia. rewrite pow2_plus.
    apply Qmult_lt_l; [apply pow2_pos | exact Hb2].
Qed.

Lemma ilog2_mono x y : 0 < x -> x <= y -> (ilog2 x <= ilog2 y)%Z.
Proof.
  intros Hx Hxy.
  destruct (ilog2_spec x Hx) as [H1 _].
  destruct (ilog2_spec y (Qlt_le_trans _ _ _ Hx Hxy)) as [_ H2].
  assert (H : 2 ^ ilog2 x < 2 ^ (ilog2 y + 1)).
  { eapply Qle_lt_trans; [exact H1|]. eapply Qle_lt_trans; eassumption. }
  apply pow2_lt_inv in H. lia.
Qed.

(** [rne] *)

Lemma rne_cases x : rne x = Qfloor x \/ rne x = (Qfloor x + 1)%Z.
Proof.
  unfold rne. destruct (Qcompare _ _); auto. destruct (Z.even _); auto.
Qed.

Lemma rne_inject_Z k : rne (inject_Z k) = k.
Proof.
  unfold rne. rewrite Qfloor_Z.
  replace (Qcompare (inject_Z k - inject_Z k) (1 # 2)) with Lt; [reflexivity|].
  assert (H : inject_Z k - inject_Z k < 1 # 2) by (ring_simplify; reflexivity).
  symmetry. exact (proj1 (Qlt_alt _ _) H).
Qed.

Lemma rne_mono x y : x <= y -> (rne x <= rne y)%Z.
Proof.
  intros Hxy.
  pose proof (Qfloor_resp_le x y Hxy) as Hf.
  destruct (Z.eq_dec (Qfloor x) (Qfloor y)) as [Heq|Hne].
  - unfold rne. rewrite <- Heq.
    assert (Hr : x - inject_Z (Qfloor x) <= y - inject_Z (Qfloor x)) by lra.
    destruct (Qcompare_spec (x - inject_Z (Qfloor x)) (1 # 2)) as [Ex|Ex|Ex];
      destruct (Qcompare_spec (y - inject_Z (Qfloor x)) (1 # 2)) as [Ey|Ey|Ey];
      try (destruct (Z.even (Qfloor x))); try lia; exfalso; lra.
  - destruct (rne_cases x) as [-> | ->], (rne_cases y) as [-> | ->]; lia.
Qed.

Lemma Qfloor_comp_rne x y : x == y -> rne x = rne y.
Proof.
  intros H. apply Z.le_antisymm; apply rne_mono; rewrite H; apply Qle_refl.
Qed.

(** [round_pos] *)

Lemma round_pos_mono x y : 0 < x -> x <= y -> round_pos x <= round_pos y.
Proof.
  intros Hx Hxy.
  assert (Hy : 0 < y) by (eapply Qlt_le_trans; eassumption).
  pose proof (ilog2_mono x y Hx Hxy) as He.
  unfold round_pos.
  set (ex := ilog2 x) in *. set (ey := ilog2 y) in *.
  destruct (Z.eq_dec ex ey) as [Heq|Hne].
  - rewrite <- Heq. apply Qmult_le_compat_r; [|apply Qlt_le_weak, pow2_pos].
    rewrite <- Zle_Qle. apply rne_mono.
    apply Qmult_le_compat_r; [exact Hxy|].
    apply Qlt_le_weak, Qinv_lt_0_compat, pow2_pos.
  - assert (Hlt : (ex < ey)%Z) by lia.
    destruct (ilog2_spec x Hx) as [_ Hx2]. destruct (ilog2_spec y Hy) as [Hy1 _].
    fold ex in Hx2. fold ey in Hy1.
    apply Qle_trans with (2 ^ ey).
    + (* round x <= 2^ey *)
      assert (Hq : x / 2 ^ (ex - 52) <= inject_Z (2 ^ (ey - (ex - 52)))).
      { rewrite <- pow2_inject by lia.
        apply Qle_shift_div_r; [apply pow2_pos|].
        rewrite <- pow2_plus. replace (ey - (ex - 52) + (ex - 52))%Z with ey by lia.
        apply Qlt_le_weak. eapply Qlt_le_trans; [exact Hx2|]. apply pow2_le. lia. }
      apply rne_mono in Hq. rewrite rne_inject_Z in Hq.
      rewrite Zle_Qle in Hq.
      rewrite <- pow2_inject in Hq by lia.
      apply Qle_trans with (2 ^ (ey - (ex - 52)) * 2 ^ (ex - 52)).
      * apply Qmult_le_compat_r; [exact Hq | apply Qlt_le_weak, pow2_pos].
      * rewrite <- pow2_plus. replace (ey - (ex - 52) + (ex - 52))%Z with ey by lia.
        apply Qle_refl.
    + (* 2^ey <= round y *)
      assert (Hq : inject_Z (2 ^ 52) <= y / 2 ^ (ey - 52)).
      { rewrite <- pow2_inject by lia.
        apply Qle_shift_div_l; [apply pow2_pos|].
        rewrite <- pow2_plus. replace (52 + (ey - 52))%Z with ey by lia. exact Hy1. }
      apply rne_mono in Hq. rewrite rne_inject_Z in Hq.
      rewrite Zle_Qle in Hq. rewrite <- pow2_inject in Hq by lia.
      apply Qle_trans with (2 ^ 52 * 2 ^ (ey - 52)).
      * rewrite <- pow2_plus. replace (52 + (ey - 52))%Z with ey by lia. apply Qle_refl.
      * apply Qmult_le_compat_r; [exact Hq | apply Qlt_le_weak, pow2_pos].
Qed.

Lemma round_pos_nonneg x : 0 < x -> 0 <= round_pos x.
Proof.
  intros Hx. unfold round_pos.
  apply Qmult_le_0_compat; [|apply Qlt_le_weak, pow2_pos].
  change 0 with (inject_Z 0). rewrite <- Zle_Qle.
  change 0%Z with (rne (inject_Z 0)) at 1. 
  apply rne_mono. apply Qlt_le_weak, Qlt_shift_div_l; [apply pow2_pos|].
  now rewrite Qmult_0_l.
Qed.

Lemma round_pos_wd x y : 0 < x -> x == y -> round_pos x == round_pos y.
Proof.
  intros Hx H. apply Qle_antisym; apply round_pos_mono;
    rewrite <- ?H; try exact Hx; rewrite ?H; apply Qle_refl.
Qed.

(** [round] *)

Theorem round_mono x y : x <= y -> round x <= round y.
Proof.
  intros Hxy. unfold round.
  destruct (Qcompare_spec x 0) as [Ex|Ex|Ex]; destruct (Qcompare_spec y 0) as [Ey|Ey|Ey];
    try (exfalso; lra).
  - apply Qle_refl.
  - apply round_pos_nonneg, Ey.
  - assert (H := round_pos_nonneg (- x)). lra.
  - apply Qopp_le_compat. apply round_pos_mono; lra.
  - assert (H := round_pos_nonneg (- x)). assert (H' := round_pos_nonneg y). lra.
  - apply round_pos_mono; assumption.
Qed.

Lemma round_pos_inject_Z (k : Z) :
  (0 < k < 2 ^ 53)%Z -> round_pos (inject_Z k) == inject_Z k.
Proof.
  intros Hk. unfold round_pos.
  assert (Hk0 : 0 < inject_Z k) by (change 0 with (inject_Z 0); rewrite <- Zlt_Qlt; lia).
  destruct (ilog2_spec (inject_Z k) Hk0) as [H1 _].
  set (e := ilog2 (inject_Z k)) in *.
  assert (He : (e < 53)%Z).
  { apply pow2_lt_inv. eapply Qle_lt_trans; [exact H1|].
    rewrite (pow2_inject 53) by lia. rewrite <- Zlt_Qlt. lia. }
  assert (Hq : inject_Z k / 2 ^ (e - 52) == inject_Z (k * 2 ^ (52 - e))).
  { rewrite inject_Z_mult, <- pow2_inject by lia.
    replace (52 - e)%Z with (- (e - 52))%Z by lia. rewrite Qpower_opp. reflexivity. }
  assert (Hr : rne (inject_Z k / 2 ^ (e - 52)) = (k * 2 ^ (52 - e))%Z).
  { apply Z.le_antisymm.
    - rewrite <- (rne_inject_Z (k * 2 ^ (52 - e))). apply rne_mono. rewrite Hq. apply Qle_refl.
    - rewrite <- (rne_inject_Z (k * 2 ^ (52 - e))) at 1. apply rne_mono. rewrite Hq. apply Qle_refl. }
  rewrite Hr, inject_Z_mult, <- pow2_inject by lia.
  rewrite <- Qmult_assoc, <- pow2_plus.
  replace (52 - e + (e - 52))%Z with 0%Z by lia. apply Qmult_1_r.
Qed.

Theorem round_inject_Z (k : Z) :
  (- 2 ^ 53 < k < 2 ^ 53)%Z -> round (inject_Z k) == inject_Z k.
Proof.
  intros Hk. unfold round.
  destruct (Qcompare (inject_Z k) 0) eqn:E.
  - apply Qeq_alt in E. now rewrite E.
  - apply Qlt_alt in E. change 0 with (inject_Z 0) in E. rewrite <- Zlt_Qlt in E.
    rewrite <- inject_Z_opp. rewrite round_pos_inject_Z by lia.
    rewrite inject_Z_opp. ring.
  - apply Qgt_alt in E. change 0 with (inject_Z 0) in E. rewrite <- Zlt_Qlt in E.
    apply round_pos_inject_Z. lia.
Qed.


Lemma round_wd x y : x == y -> round x == round y.
Proof.
  intros H. apply Qle_antisym; apply round_mono; rewrite H; apply Qle_refl.
Qed.

Lemma round_0 : round 0 == 0.
Proof. reflexivity. Qed.

Lemma round_nonneg x : 0 <= x -> 0 <= round x.
Proof. intros H. rewrite <- round_0. apply round_mono, H. Qed.

(** Numbers with at most 53 significant bits are not changed. *)

Lemma round_pos_dyadic (k j : Z) :
  (0 < k < 2 ^ 53)%Z -> round_pos (inject_Z k * 2 ^ j) == inject_Z k * 2 ^ j.
Proof.
  intros Hk. unfold round_pos.
  assert (Hk0 : 0 < inject_Z k) by (change 0 with (inject_Z 0); rewrite <- Zlt_Qlt; lia).
  assert (Hx0 : 0 < inject_Z k * 2 ^ j).
  { apply Qmult_lt_0_compat; [exact Hk0 | apply pow2_pos]. }
  destruct (ilog2_spec _ Hx0) as [H1 _].
  set (e := ilog2 (inject_Z k * 2 ^ j)) in *.
  assert (He : (e < 53 + j)%Z).
  { apply pow2_lt_inv. eapply Qle_lt_trans; [exact H1|].
    rewrite pow2_plus. apply Qmult_lt_r; [apply pow2_pos|].
    rewrite (pow2_inject 53) by lia. rewrite <- Zlt_Qlt. lia. }
  assert (Hq : inject_Z k * 2 ^ j / 2 ^ (e - 52) == inject_Z (k * 2 ^ (j + 52 - e))).
  { rewrite inject_Z_mult, <- pow2_inject by lia.
    replace (j + 52 - e)%Z with (j + - (e - 52))%Z by lia.
    rewrite pow2_plus, Qpower_opp. unfold Qdiv. ring. }
  rewrite (Qfloor_comp_rne _ _ Hq), rne_inject_Z.
  rewrite inject_Z_mult, <- pow2_inject by lia.
  rewrite <- Qmult_assoc, <- pow2_plus.
  replace (j + 52 - e + (e - 52))%Z with j by lia. reflexivity.
Qed.

Theorem round_dyadic (k j : Z) :
  (- 2 ^ 53 < k < 2 ^ 53)%Z -> round (inject_Z k * 2 ^ j) == inject_Z k * 2 ^ j.
Proof.
  intros Hk. unfold round.
  destruct (Qcompare_spec (inject_Z k * 2 ^ j) 0) as [E|E|E].
  - now rewrite E.
  - assert (Hneg : (k < 0)%Z).
    { destruct (Z.lt_ge_cases k 0) as [H|H]; [exact H|]. exfalso.
      apply (Qlt_not_le _ _ E). apply Qmult_le_0_compat;
        [change 0 with (inject_Z 0); rewrite <- Zle_Qle; exact H
        |apply Qlt_le_weak, pow2_pos]. }
    assert (Hopp : - (inject_Z k * 2 ^ j) == inject_Z (- k) * 2 ^ j)
      by (rewrite inject_Z_opp; ring).
    rewrite (round_pos_wd _ _ (Qopp_lt_compat _ 0 E) Hopp), round_pos_dyadic by lia.
    rewrite inject_Z_opp. ring.
  - assert (Hpos : (0 < k)%Z).
    { destruct (Z.lt_ge_cases 0 k) as [H|H]; [exact H|]. exfalso.
      apply (Qlt_not_le _ _ E).
      apply Qle_trans with (0 * 2 ^ j); [|rewrite Qmult_0_l; apply Qle_refl].
      apply Qmult_le_compat_r; [|apply Qlt_le_weak, pow2_pos].
      change 0 with (inject_Z 0). rewrite <- Zle_Qle. exact H. }
    apply round_pos_dyadic. lia.
Qed.

(** The error of rounding. *)

Lemma rne_error x : - (1 # 2) <= inject_Z (rne x) - x /\ inject_Z (rne x) - x <= 1 # 2.
Proof.
  pose proof (Qfloor_le x) as H1. pose proof (Qlt_floor x) as H2.
  rewrite inject_Z_plus in H2. change (inject_Z 1) with 1 in H2. unfold rne.
  destruct (Qcompare_spec (x - inject_Z (Qfloor x)) (1 # 2)) as [E|E|E];
    [destruct (Z.even (Qfloor x))| |]; rewrite ?inject_Z_plus;
    change (inject_Z 1) with 1; split; lra.
Qed.

Lemma round_pos_error x :
  0 < x -> - (x * (1 # 2 ^ 53)) <= round_pos x - x /\ round_pos x - x <= x * (1 # 2 ^ 53).
Proof.
  intros Hx. destruct (ilog2_spec x Hx) as [H1 _]. unfold round_pos.
  set (e := ilog2 x) in *. set (u := 2 ^ (e - 52)).
  assert (Hu : 0 < u) by apply pow2_pos.
  destruct (rne_error (x / u)) as [Hlo Hhi].
  assert (Hxu : x / u * u == x) by (field; apply pow2_nonzero).
  assert (Hhalf : u * (1 # 2) <= x * (1 # 2 ^ 53)).
  { assert (Hue : u * (1 # 2) == 2 ^ e * (1 # 2 ^ 53)).
    { unfold u. replace (e - 52)%Z with (e + - 52)%Z by lia.
      rewrite pow2_plus. setoid_replace (2 ^ (- 52)) with (1 # 2 ^ 52) using relation Qeq by reflexivity.
      setoid_replace (1 # 2 ^ 53) with ((1 # 2 ^ 52) * (1 # 2)) using relation Qeq
      by reflexivity.
    ring. }
    rewrite Hue. apply Qmult_le_compat_r; [exact H1 | discriminate]. }
  assert (Heq : inject_Z (rne (x / u)) * u - x == (inject_Z (rne (x / u)) - x / u) * u).
  { field. apply pow2_nonzero. }
  rewrite Heq. split.
  - apply Qle_trans with (- (u * (1 # 2))); [lra|].
    setoid_replace (- (u * (1 # 2))) with (- (1 # 2) * u) using relation Qeq by ring.
    apply Qmult_le_compat_r; [exact Hlo | apply Qlt_le_weak, Hu].
  - apply Qle_trans with (u * (1 # 2)); [|exact Hhalf].
    setoid_replace (u * (1 # 2)) with ((1 # 2) * u) using relation Qeq by ring.
    apply Qmult_le_compat_r; [exact Hhi | apply Qlt_le_weak, Hu].
Qed.

Theorem round_error x : Qabs (round x - x) <= Qabs x * (1 # 2 ^ 53).
Proof.
  unfold round. destruct (Qcompare_spec x 0) as [E|E|E].
  - rewrite E. discriminate.
  - destruct (round_pos_error (- x)) as [H1 H2]; [lra|].
    rewrite (Qabs_neg x) by lra. apply Qabs_Qle_condition. split; lra.
  - destruct (round_pos_error x E) as [H1 H2].
    rewrite (Qabs_pos x) by lra. apply Qabs_Qle_condition. split; lra.
Qed.


(** A number that rounding leaves alone is an integer divided by a power
    of two. *)
Lemma round_pos_fixed x :
  0 < x -> x < 2 ^ 53 -> round_pos x == x ->
  exists (M s : Z), (0 <= s)%Z /\ x * inject_Z (2 ^ s) == inject_Z M.
Proof.
  intros Hx Hlt Hfix. destruct (ilog2_spec x Hx) as [H1 _].
  unfold round_pos in Hfix. set (e := ilog2 x) in *.
  assert (He : (e < 53)%Z).
  { apply pow2_lt_inv. eapply Qle_lt_trans; eassumption. }
  exists (rne (x / 2 ^ (e - 52))), (52 - e)%Z. split; [lia|].
  rewrite <- pow2_inject by lia. rewrite <- Hfix at 1.
  rewrite <- Qmult_assoc, <- pow2_plus.
  replace (e - 52 + (52 - e))%Z with 0%Z by lia. apply Qmult_1_r.
Qed.

Lemma round_fixed x :
  - 2 ^ 53 < x -> x < 2 ^ 53 -> round x == x ->
  exists (M s : Z), (0 <= s)%Z /\ x * inject_Z (2 ^ s) == inject_Z M.
Proof.
  intros Hlo Hhi. unfold round.
  destruct (Qcompare_spec x 0) as [E|E|E]; intros Hfix.
  - exists 0%Z, 0%Z. split; [lia|]. rewrite E. reflexivity.
  - destruct (round_pos_fixed (- x)) as (M & s & Hs & HM); try lra.
    exists (- M)%Z, s. split; [exact Hs|]. rewrite inject_Z_opp, <- HM. ring.
  - apply round_pos_fixed; assumption.
Qed.

(** Division of an integer by 100. *)

Lemma div_int_100_exact (n : Z) :
  (- 2 ^ 53 < n < 2 ^ 53)%Z -> (n mod 25 = 0)%Z -> div_int n 100 == n # 100.
Proof.
  intros Hn Hmod. unfold div_int.
  apply Z.mod_divide in Hmod; [|lia]. destruct Hmod as [k Hk].
  assert (H4 : 1 # 4 == 2 ^ (- 2)) by reflexivity.
  assert (Hq : inject_Z n / inject_Z 100 == inject_Z k * 2 ^ (- 2)).
  { rewrite <- H4. subst n. unfold Qeq, Qdiv, Qmult, Qinv, inject_Z.
    cbn [Qnum Qden]. simpl. lia. }
  assert (Hq' : n # 100 == inject_Z k * 2 ^ (- 2)).
  { rewrite <- H4. subst n. unfold Qeq, Qmult, inject_Z. cbn [Qnum Qden]. lia. }
  rewrite (round_wd _ _ Hq), Hq'. apply round_dyadic. lia.
Qed.

Lemma div_int_100_inexact (n : Z) :
  (- 2 ^ 53 < n < 2 ^ 53)%Z -> div_int n 100 == n # 100 -> (n mod 25 = 0)%Z.
Proof.
  intros Hn Hfix. unfold div_int in Hfix.
  assert (Hq : inject_Z n / inject_Z 100 == n # 100).
  { unfold Qeq, Qdiv, Qmult, Qinv, inject_Z. cbn [Qnum Qden]. simpl. lia. }
  rewrite (round_wd _ _ Hq) in Hfix.
  destruct (round_fixed (n # 100)) as (M & s & Hs & HM); try exact Hfix.
  - rewrite (pow2_inject 53) by lia. rewrite <- inject_Z_opp.
    unfold Qlt, inject_Z. cbn [Qnum Qden]. lia.
  - rewrite (pow2_inject 53) by lia. unfold Qlt, inject_Z. cbn [Qnum Qden]. lia.
  - assert (HZ : (n * 2 ^ s = 100 * M)%Z).
    { unfold Qeq, Qmult, inject_Z in HM. cbn [Qnum Qden] in HM. lia. }
    apply Z.mod_divide; [lia|].
    apply Z.gauss with (m := (2 ^ s)%Z).
    + exists (4 * M)%Z. lia.
    + apply Z.coprime_pow_r; [exact Hs | reflexivity].
Qed.

End Rounding.

(** * Properties of the decoder *)

Section Decoder.

Import Struct.

Lemma u8_range b : 0 <= u8 b < 256.
Proof.
  unfold u8. pose proof (Byte.to_N_bounded b) as Hb. lia.
Qed.

Lemma u8_byte_of_Z z : u8 (byte_of_Z z) = z mod 256.
Proof.
  unfold u8, byte_of_Z.
  assert (Hr : 0 <= z mod 256 < 256) by (apply Z.mod_pos_bound; lia).
  destruct (Byte.of_N (Z.to_N (z mod 256))) as [b|] eqn:E.
  - apply Byte.to_of_N in E. rewrite E. lia.
  - apply Byte.of_N_None_iff in E. lia.
Qed.

(** One big-endian 16-bit word read back from its two bytes. *)
Lemma word_of_pack_H x :
  0 <= x < 65536 ->
  256 * u8 (byte_of_Z (x / 256)) + u8 (byte_of_Z x) = x.
Proof.
  intros Hx. rewrite !u8_byte_of_Z.
  rewrite (Z.mod_small (x / 256)) by (split; [apply Z.div_pos | apply Z.div_lt_upper_bound]; lia).
  pose proof (Z.div_mod x 256). lia.
Qed.

Lemma unpack_from_pack xs rest :
  Forall (fun x => 0 <= x < 65536) xs ->
  unpack_from (length xs) (pack xs ++ rest) = Returned xs.
Proof.
  induction 1 as [|x xs Hx _ IH]; [reflexivity|].
  cbn [length pack flat_map pack_H app unpack_from].
  fold (pack xs). rewrite IH. cbn [bind_outcome].
  now rewrite word_of_pack_H.
Qed.

(** Only the first [2 * count] bytes are read. *)
Lemma unpack_from_prefix count : forall buf buf',
  take (2 * count) buf = take (2 * count) buf' ->
  (2 * count <= length buf)%nat ->
  unpack_from count buf = unpack_from count buf'.
Proof.
  induction count as [|k IH]; intros buf buf' Heq Hlen; [reflexivity|].
  replace (2 * S k)%nat with (S (S (2 * k))) in * by lia.
  destruct buf as [|hi [|lo rest]]; cbn [length] in Hlen; try lia.
  destruct buf' as [|hi' [|lo' rest']]; cbn [take] in Heq; try discriminate Heq.
  injection Heq as -> -> Heq.
  cbn [unpack_from]. rewrite (IH rest rest' Heq) by lia. reflexivity.
Qed.

(** A long enough buffer always unpacks, to exactly [count] words. *)
Lemma unpack_from_total count : forall buf,
  (2 * count <= length buf)%nat ->
  exists xs, unpack_from count buf = Returned xs /\ length xs = count.
Proof.
  induction count as [|k IH]; intros buf Hlen.
  - exists []. split; reflexivity.
  - destruct buf as [|hi [|lo rest]]; cbn [length] in Hlen; try lia.
    destruct (IH rest) as (xs & Hxs & Hl); [lia|].
    exists ((256 * u8 hi + u8 lo) :: xs). cbn [unpack_from]. rewrite Hxs.
    split; [reflexivity | cbn; lia].
Qed.

Lemma parse_packet_long data :
  (37 <= length data)%nat ->
  parse_packet data =
    bind_outcome (unpack_from 7 (drop 23 data)) (fun x =>
    bind_outcome (item x 0) (fun x0 =>
    bind_outcome (item x 1) (fun x1 =>
    bind_outcome (item x 2) (fun x2 =>
    bind_outcome (item x 3) (fun x3 =>
    bind_outcome (item x 4) (fun x4 =>
    bind_outcome (item x 5) (fun x5 =>
    bind_outcome (item x 6) (fun x6 =>
    Returned (Some {|
      pm25 := x0; pm10 := x1;
      hcho := Binary64.div_int x2 100; tvoc := Binary64.div_int x3 100;
      co2 := x4;
      temperature := Binary64.div_int (x5 - 3500) 100;
      humidity := Binary64.div_int x6 100 |}))))))))).
Proof.
  intros Hlen. unfold parse_packet.
  destruct (Z.ltb_spec (Z.of_nat (length data)) (23 + 14)); [lia | reflexivity].
Qed.

Lemma quotient_by_100_div_int (n : Z) :
  - 2 ^ 53 < n < 2 ^ 53 -> quotient_by_100 (Binary64.div_int n 100) n.
Proof.
  intros Hn.
  assert (Hq : (inject_Z n / inject_Z 100 == n # 100)%Q).
  { unfold Qeq, Qdiv, Qmult, Qinv, inject_Z. cbn [Qnum Qden]. simpl. lia. }
  split; [|split].
  - apply round_wd, Hq.
  - split; [apply div_int_100_inexact | apply div_int_100_exact]; exact Hn.
  - unfold Binary64.div_int. rewrite (round_wd _ _ Hq). apply round_error.
Qed.

(** The claim of C1 fails for a raw value that is not a multiple of 25: the
    raw value 7 decodes to the binary64 number nearest to 0.07, which is
    1261007895663739 / 2^54 and not 7/100.  The primitive binary64 division
    gives the same number. *)
Lemma parse_packet_not_exact :
  exists m,
    parse_packet scenario_7 = Returned (Some m)
    /\ ~ (hcho m == 7 # 100)%Q
    /\ (hcho m == 1261007895663739 # 18014398509481984)%Q
    /\ exists q, Binary64.prim_div_int 7 100 = Some q /\ (q == hcho m)%Q.
Proof.
  eexists. split; [vm_compute; reflexivity|]. cbn [hcho]. split; [|split].
  - intros H. apply Qeq_bool_iff in H. vm_compute in H. discriminate H.
  - apply Qeq_bool_iff. vm_compute. reflexivity.
  - eexists. split; [vm_compute; reflexivity|].
    apply Qeq_bool_iff. vm_compute. reflexivity.
Qed.

(** C1, amended.  A buffer that carries, after 23 header bytes, the big-endian
    encoding of seven 16-bit values [x0 .. x6] (and anything after them)
    decodes to a complete measurement: pm25, pm10 and co2 are [x0], [x1] and
    [x4]; hcho, tvoc and humidity are the binary64 numbers nearest to
    [x2/100], [x3/100] and [x6/100], and temperature the one nearest to
    [(x5 - 3500)/100]: the rational itself exactly when the numerator is a
    multiple of 25, and within the relative error 2^-53 of it always. *)
Theorem parse_packet_decodes (header trailer : list byte) (x0 x1 x2 x3 x4 x5 x6 : Z) :
  length header = 23%nat ->
  Forall (fun x => 0 <= x < 65536) [x0; x1; x2; x3; x4; x5; x6] ->
  exists m,
    parse_packet (header ++ pack [x0; x1; x2; x3; x4; x5; x6] ++ trailer)
      = Returned (Some m)
    /\ pm25 m = x0
    /\ pm10 m = x1
    /\ quotient_by_100 (hcho m) x2
    /\ quotient_by_100 (tvoc m) x3
    /\ co2 m = x4
    /\ quotient_by_100 (temperature m) (x5 - 3500)
    /\ quotient_by_100 (humidity m) x6.
Proof.
  intros Hh Hx.
  rewrite parse_packet_long
    by (rewrite !length_app, Hh; cbn [length pack flat_map pack_H app]; lia).
  rewrite drop_app_length' by (symmetry; exact Hh).
  change 7%nat with (length [x0; x1; x2; x3; x4; x5; x6]) at 1.
  rewrite unpack_from_pack by exact Hx.
  cbn [bind_outcome item lookup list_lookup].
  repeat match goal with
         | H : Forall _ (_ :: _) |- _ => apply Forall_cons in H as [? H]
         end.
  eexists. split; [reflexivity|].
  cbn [pm25 pm10 hcho tvoc co2 temperature humidity].
  repeat (split; [first [reflexivity | apply quotient_by_100_div_int; lia]|]).
  apply quotient_by_100_div_int; lia.
Qed.

(** Scenario A decodes to pm25 10, pm10 20, hcho 1.5, tvoc 2.5, co2 800,
    temperature 3.0 and humidity 60.0. *)
Lemma parse_packet_scenario_A :
  length scenario_A = 37%nat /\
  exists m,
    parse_packet scenario_A = Returned (Some m)
    /\ pm25 m = 10 /\ pm10 m = 20
    /\ (hcho m == 3 # 2)%Q /\ (tvoc m == 5 # 2)%Q
    /\ co2 m = 800
    /\ (temperature m == 3)%Q /\ (humidity m == 60)%Q.
Proof.
  split; [reflexivity|].
  destruct (parse_packet_decodes (repeat x00 23) [] 10 20 150 250 800 3800 6000)
    as (m & Hm & H0 & H1 & H2 & H3 & H4 & H5 & H6).
  - reflexivity.
  - repeat constructor; lia.
  - exists m. split; [exact Hm|].
    destruct H2 as (_ & H2 & _), H3 as (_ & H3 & _), H5 as (_ & H5 & _),
             H6 as (_ & H6 & _).
    repeat split; try assumption.
    + rewrite (proj2 H2 eq_refl). reflexivity.
    + rewrite (proj2 H3 eq_refl). reflexivity.
    + rewrite (proj2 H5 eq_refl). reflexivity.
    + rewrite (proj2 H6 eq_refl). reflexivity.
Defined.

(** C3.  A buffer shorter than 37 bytes is rejected: [parse_packet] returns
    [None]; it neither returns a measurement nor raises. *)
Theorem parse_packet_short (data : list byte) :
  (length data < 37)%nat ->
  parse_packet data = Returned None.
Proof.
  intros Hlen. unfold parse_packet.
  destruct (Z.ltb_spec (Z.of_nat (length data)) (23 + 14)); [reflexivity | lia].
Qed.

Lemma parse_packet_short_10 :
  (length (repeat x00 10) < 37)%nat /\ parse_packet (repeat x00 10) = Returned None.
Proof.
  split.
  - cbn. lia.
  - apply parse_packet_short. cbn. lia.
Defined.

(** C9.  A buffer of at least 37 bytes always decodes: [parse_packet]
    returns a measurement (not [None], no exception), and every other
    buffer of at least 37 bytes with the same bytes at offsets 23..36
    decodes to the same measurement, whatever its header and whatever
    follows offset 36. *)
Theorem parse_packet_accepts (data : list byte) :
  (37 <= length data)%nat ->
  exists m,
    parse_packet data = Returned (Some m) /\
    forall data' : list byte,
      (37 <= length data')%nat ->
      take 14 (drop 23 data') = take 14 (drop 23 data) ->
      parse_packet data' = Returned (Some m).
Proof.
  intros Hlen.
  destruct (unpack_from_total 7 (drop 23 data)) as (xs & Hxs & Hl);
    [rewrite length_drop; lia|].
  do 8 (destruct xs as [|? xs]; try discriminate Hl).
  eexists. split.
  - rewrite parse_packet_long, Hxs by exact Hlen. reflexivity.
  - intros data' Hlen' Heq.
    rewrite parse_packet_long by exact Hlen'.
    rewrite (unpack_from_prefix 7 (drop 23 data') (drop 23 data)), Hxs;
      [reflexivity | exact Heq | rewrite length_drop; lia].
Qed.

Lemma parse_packet_accepts_scenario_A :
  (37 <= length scenario_A)%nat /\
  exists m,
    parse_packet scenario_A = Returned (Some m) /\
    forall data' : list byte,
      (37 <= length data')%nat ->
      take 14 (drop 23 data') = take 14 (drop 23 scenario_A) ->
      parse_packet data' = Returned (Some m).
Proof.
  split.
  - cbn. lia.
  - apply parse_packet_accepts. cbn. lia.
Defined.

End Decoder.

(** * Properties of the liveness evaluation *)

Section Liveness.

Local Open Scope Q_scope.

Lemma float_truthy_spec x : float_truthy x = negb (Qeq_bool x 0).
Proof.
  unfold float_truthy, Qeq_bool. cbn [Qnum Qden].
  f_equal. rewrite Z.mul_1_r, Z.mul_0_l. reflexivity.
Qed.

Lemma float_truthy_true x : float_truthy x = true <-> ~ x == 0.
Proof.
  rewrite float_truthy_spec, negb_true_iff.
  rewrite <- Qeq_bool_iff. destruct (Qeq_bool x 0); intuition congruence.
Qed.

Lemma float_truthy_false x : float_truthy x = false <-> x == 0.
Proof.
  rewrite float_truthy_spec, negb_false_iff. apply Qeq_bool_iff.
Qed.

(** Truncation is the floor on non-negative numbers ... *)
Lemma int_of_float_nonneg x : 0 <= x -> int_of_float x = Qfloor x.
Proof.
  destruct x as [n d]. unfold Qle, int_of_float, Qfloor. cbn [Qnum Qden].
  intros Hn. apply Z.quot_div_nonneg; lia.
Qed.

(** ... and the ceiling on non-positive ones. *)
Lemma int_of_float_nonpos x : x <= 0 -> int_of_float x = Qceiling x.
Proof.
  destruct x as [n d]. unfold Qle, int_of_float, Qceiling, Qfloor, Qopp.
  cbn [Qnum Qden]. intros Hn.
  rewrite <- (Z.opp_involutive n) at 1.
  rewrite Z.quot_opp_l by lia. f_equal.
  apply Z.quot_div_nonneg; lia.
Qed.

Lemma int_of_float_mono x y : x <= y -> (int_of_float x <= int_of_float y)%Z.
Proof.
  intros Hxy.
  destruct (Qlt_le_dec x 0) as [Hx|Hx], (Qlt_le_dec y 0) as [Hy|Hy].
  - rewrite !int_of_float_nonpos by (apply Qlt_le_weak; assumption).
    apply Qceiling_resp_le, Hxy.
  - rewrite int_of_float_nonpos by (apply Qlt_le_weak; assumption).
    rewrite int_of_float_nonneg by assumption.
    transitivity 0%Z.
    + change 0%Z with (Qceiling 0). apply Qceiling_resp_le, Qlt_le_weak, Hx.
    + change 0%Z with (Qfloor 0). apply Qfloor_resp_le, Hy.
  - exfalso. apply (Qlt_irrefl 0).
    eapply Qle_lt_trans; [exact Hx|]. eapply Qle_lt_trans; eassumption.
  - rewrite !int_of_float_nonneg by assumption. apply Qfloor_resp_le, Hxy.
Qed.

Lemma int_of_float_inject_Z (z : Z) (x : Q) : x == inject_Z z -> int_of_float x = z.
Proof.
  intros Hx.
  destruct (Z.le_gt_cases 0 z) as [Hz|Hz].
  - rewrite int_of_float_nonneg
      by (rewrite Hx; change 0 with (inject_Z 0); rewrite <- Zle_Qle; exact Hz).
    rewrite Hx. apply Qfloor_Z.
  - rewrite int_of_float_nonpos
      by (rewrite Hx; change 0 with (inject_Z 0); rewrite <- Zle_Qle; lia).
    rewrite Hx. apply Qceiling_Z.
Qed.

(** [evaluate] when the device has no time stamp, or the time stamp 0.0. *)
Lemma evaluate_never (lastSeenAt : option Q) now timeout :
  default 0 lastSeenAt == 0 ->
  evaluate lastSeenAt now timeout = (999999%Z, false).
Proof.
  intros Hz. unfold evaluate.
  rewrite (proj2 (float_truthy_false _) Hz).
  rewrite (proj2 (Qeq_bool_iff _ _) Hz). reflexivity.
Qed.

(** [evaluate] for a recorded, non-zero time stamp. *)
Lemma evaluate_seen ts now timeout :
  ~ ts == 0 ->
  evaluate (Some ts) now timeout =
    (int_of_float (Binary64.sub now ts),
     (int_of_float (Binary64.sub now ts) <=? timeout)%Z).
Proof.
  intros Hnz. unfold evaluate. change (default 0 (Some ts)) with ts.
  rewrite (proj2 (float_truthy_true _) Hnz).
  destruct (Qeq_bool ts 0) eqn:E; [apply Qeq_bool_iff in E; contradiction|].
  reflexivity.
Qed.

Lemma int_of_float_wd x y : x == y -> int_of_float x = int_of_float y.
Proof.
  intros H. apply Z.le_antisymm; apply int_of_float_mono; rewrite H; apply Qle_refl.
Qed.

(** The float difference lies between any two integers (below 2^53 in
    magnitude) that enclose the exact difference, and so does its integer
    part. *)
Lemma sub_between (now ts : Q) (a b : Z) :
  (- 2 ^ 53 < a)%Z -> (b < 2 ^ 53)%Z ->
  inject_Z a <= now - ts -> now - ts <= inject_Z b ->
  (a <= int_of_float (Binary64.sub now ts) <= b)%Z.
Proof.
  intros Ha Hb Hlo Hhi. unfold Binary64.sub.
  assert (Hab : (a <= b)%Z) by (rewrite Zle_Qle; eapply Qle_trans; eassumption).
  split.
  - rewrite <- (int_of_float_inject_Z a (Binary64.round (inject_Z a)))
      by (apply round_inject_Z; lia).
    apply int_of_float_mono, round_mono, Hlo.
  - rewrite <- (int_of_float_inject_Z b (Binary64.round (inject_Z b)))
      by (apply round_inject_Z; lia).
    apply int_of_float_mono, round_mono, Hhi.
Qed.

Lemma sub_le (now ts : Q) (b : Z) :
  (- 2 ^ 53 < b < 2 ^ 53)%Z -> now - ts <= inject_Z b ->
  (int_of_float (Binary64.sub now ts) <= b)%Z.
Proof.
  intros Hb Hhi. unfold Binary64.sub.
  rewrite <- (int_of_float_inject_Z b (Binary64.round (inject_Z b)))
    by (apply round_inject_Z; lia).
  apply int_of_float_mono, round_mono, Hhi.
Qed.

Lemma sub_ge (now ts : Q) (a : Z) :
  (- 2 ^ 53 < a < 2 ^ 53)%Z -> inject_Z a <= now - ts ->
  (a <= int_of_float (Binary64.sub now ts))%Z.
Proof.
  intros Ha Hlo. unfold Binary64.sub.
  rewrite <- (int_of_float_inject_Z a (Binary64.round (inject_Z a)))
    by (apply round_inject_Z; lia).
  apply int_of_float_mono, round_mono, Hlo.
Qed.

(** The age never decreases when [now] increases. *)
Lemma evaluate_age_mono lastSeenAt timeout now1 now2 :
  now1 <= now2 ->
  (fst (evaluate lastSeenAt now1 timeout) <= fst (evaluate lastSeenAt now2 timeout))%Z.
Proof.
  intros Hle. unfold evaluate. cbn [fst].
  destruct (float_truthy (default 0 lastSeenAt)); [|lia].
  apply int_of_float_mono, round_mono. lra.
Qed.

(** Once offline, a device stays offline as [now] increases. *)
Lemma evaluate_online_antitone lastSeenAt timeout now1 now2 :
  now1 <= now2 ->
  snd (evaluate lastSeenAt now1 timeout) = false ->
  snd (evaluate lastSeenAt now2 timeout) = false.
Proof.
  intros Hle.
  pose proof (evaluate_age_mono lastSeenAt timeout now1 now2 Hle) as Hm.
  unfold evaluate in *. cbn [fst snd] in *.
  destruct (Qeq_bool (default 0 lastSeenAt) 0); cbn [negb andb]; [reflexivity|].
  rewrite !Z.leb_gt. lia.
Qed.

(** Online up to the timeout, offline from one second after it. *)
Lemma evaluate_online_regions ts now timeout :
  ~ ts == 0 ->
  (- 2 ^ 53 < timeout < 2 ^ 53 - 1)%Z ->
  (now - ts <= inject_Z timeout -> snd (evaluate (Some ts) now timeout) = true)
  /\ (inject_Z timeout + 1 <= now - ts -> snd (evaluate (Some ts) now timeout) = false).
Proof.
  intros Hnz Ht. rewrite evaluate_seen by exact Hnz. cbn [snd]. split; intros H.
  - apply Z.leb_le, sub_le; [lia | exact H].
  - apply Z.leb_gt.
    assert (H' : (timeout + 1 <= int_of_float (Binary64.sub now ts))%Z).
    { apply sub_ge; [lia|]. rewrite inject_Z_plus. exact H. }
    lia.
Qed.

Lemma Qceiling_small x : -(1) < x -> x <= 0 -> Qceiling x = 0%Z.
Proof.
  intros Hlo Hhi.
  pose proof (Qle_ceiling x) as Hup.
  pose proof (Qceiling_lt x) as Hdown.
  assert (H1 : inject_Z (-1) < inject_Z (Qceiling x))
    by (eapply Qlt_le_trans; [exact Hlo | exact Hup]).
  assert (H2 : inject_Z (Qceiling x - 1) < inject_Z 0)
    by (eapply Qlt_le_trans; [exact Hdown | exact Hhi]).
  rewrite <- Zlt_Qlt in H1, H2. lia.
Qed.

(** The subtraction rounds: between the binary64 numbers nearest to 0.3 and
    to 3.3 the exact difference is below 3, the float difference is 3, and
    with a timeout of 2 the device is offline at age 3.  The primitive
    binary64 subtraction gives the same difference. *)
Lemma evaluate_rounds :
  double_3_3 - double_0_3 < 3
  /\ Binary64.sub double_3_3 double_0_3 == 3
  /\ evaluate (Some double_0_3) double_3_3 2 = (3%Z, false)
  /\ option_map Qred
       (Binary64.Q_of_float
          (PrimFloat.sub (PrimFloat.div (Binary64.float_of_Z 33) (Binary64.float_of_Z 10))
             (PrimFloat.div (Binary64.float_of_Z 3) (Binary64.float_of_Z 10))))
     = Some (Qred (Binary64.sub double_3_3 double_0_3)).
Proof.
  split; [reflexivity|]. split; [apply Qeq_bool_iff; vm_compute; reflexivity|].
  split; vm_compute; reflexivity.
Qed.

(** The claim of C2 fails when the clock reads less than the recorded time
    stamp: five seconds "before" the last packet the age is -5, not 0. *)
Lemma evaluate_not_clamped :
  evaluate (Some 10) 5 10 = ((-5)%Z, true) /\
  ~ exists sentinel : Z,
      evaluate (Some 10) 5 10 = evaluate_contract sentinel (Some 10) 5 10.
Proof.
  split; [vm_compute; reflexivity|].
  intros [sentinel H]. vm_compute in H. discriminate H.
Qed.

(** C2, amended.  Without a time stamp, or with the time stamp 0.0, the
    result is age 999999 and offline.  With a non-zero time stamp [ts],
    online is [age <= timeout] and the age is the float difference
    [now - ts] truncated toward zero, without a clamp: it is at most -1 when
    [now - ts <= -1], it is not negative when [ts <= now], and for a
    difference of at most 2^52 in magnitude it lies between the floor and the
    ceiling of the exact difference.  Where the subtraction is exact, the
    result is the one of the contract (floor, negative clamped to zero,
    sentinel 999999) as long as [now - ts > -1], and the age is the negative
    integer [ceiling (now - ts)] from [now - ts <= -1] on. *)
Theorem evaluate_truncates (lastSeenAt : option Q) (now : Q) (timeout : Z) :
  (lastSeenAt = None \/ (exists ts, lastSeenAt = Some ts /\ ts == 0) ->
     evaluate lastSeenAt now timeout = (999999%Z, false))
  /\
  (forall ts, lastSeenAt = Some ts -> ~ ts == 0 ->
     snd (evaluate lastSeenAt now timeout)
       = (fst (evaluate lastSeenAt now timeout) <=? timeout)%Z
     /\ fst (evaluate lastSeenAt now timeout) = int_of_float (Binary64.sub now ts)
     /\ (now - ts <= -(1) -> (fst (evaluate lastSeenAt now timeout) <= -1)%Z)
     /\ (ts <= now -> (0 <= fst (evaluate lastSeenAt now timeout))%Z)
     /\ (inject_Z (- 2 ^ 52) <= now - ts -> now - ts <= inject_Z (2 ^ 52) ->
           (Qfloor (now - ts) <= fst (evaluate lastSeenAt now timeout)
              <= Qceiling (now - ts))%Z)
     /\ (Binary64.sub now ts == now - ts ->
           (-(1) < now - ts ->
              evaluate lastSeenAt now timeout
                = evaluate_contract 999999 lastSeenAt now timeout)
           /\ (now - ts <= -(1) ->
                 fst (evaluate lastSeenAt now timeout) = Qceiling (now - ts)))).
Proof.
  split.
  - intros [-> | (ts & -> & Hz)]; apply evaluate_never; [reflexivity | exact Hz].
  - intros ts -> Hnz. rewrite evaluate_seen by exact Hnz. cbn [fst snd].
    split; [reflexivity|]. split; [reflexivity|]. split; [|split; [|split]].
    + intros Hd. apply (sub_le now ts (-1)); [lia | exact Hd].
    + intros Hd. apply (sub_ge now ts 0); [lia | change (inject_Z 0) with 0; lra].
    + intros Hlo Hhi.
      assert (Hf : (- 2 ^ 52 <= Qfloor (now - ts))%Z).
      { rewrite <- (Qfloor_Z (- 2 ^ 52)). apply Qfloor_resp_le, Hlo. }
      assert (Hc : (Qceiling (now - ts) <= 2 ^ 52)%Z).
      { rewrite <- (Qceiling_Z (2 ^ 52)). apply Qceiling_resp_le, Hhi. }
      apply sub_between; [lia | lia | apply Qfloor_le | apply Qle_ceiling].
    + intros Hexact. rewrite (int_of_float_wd _ _ Hexact). split.
      * intros Hd. unfold evaluate_contract.
        destruct (Qlt_le_dec (now - ts) 0) as [Hneg|Hpos].
        -- rewrite int_of_float_nonpos by (apply Qlt_le_weak; exact Hneg).
           rewrite Qceiling_small by (try apply Qlt_le_weak; assumption).
           assert (Hf : (Qfloor (now - ts) <= 0)%Z)
             by (change 0%Z with (Qfloor 0); apply Qfloor_resp_le, Qlt_le_weak, Hneg).
           replace (Z.max 0 (Qfloor (now - ts))) with 0%Z by lia. reflexivity.
        -- rewrite int_of_float_nonneg by exact Hpos.
           assert (Hf : (0 <= Qfloor (now - ts))%Z)
             by (change 0%Z with (Qfloor 0); apply Qfloor_resp_le, Hpos).
           replace (Z.max 0 (Qfloor (now - ts))) with (Qfloor (now - ts)) by lia.
           reflexivity.
      * intros Hd.
        apply int_of_float_nonpos. eapply Qle_trans; [exact Hd | discriminate].
Qed.

Lemma evaluate_truncates_example :
  evaluate None 5 10 = (999999%Z, false)
  /\ evaluate (Some 0) 5 10 = (999999%Z, false)
  /\ evaluate (Some (5 # 2)) 5 10 = evaluate_contract 999999 (Some (5 # 2)) 5 10
  /\ fst (evaluate (Some (21 # 2)) 5 10) = Qceiling (5 - (21 # 2))
  /\ (fst (evaluate (Some double_0_3) double_3_3 10) <= Qceiling (double_3_3 - double_0_3))%Z.
Proof.
  split; [|split; [|split; [|split]]].
  - apply (proj1 (evaluate_truncates None 5 10)). left. reflexivity.
  - apply (proj1 (evaluate_truncates (Some 0) 5 10)). right.
    exists 0. split; reflexivity.
  - apply (proj2 (evaluate_truncates (Some (5 # 2)) 5 10) (5 # 2) eq_refl).
    + discriminate.
    + apply Qeq_bool_iff. vm_compute. reflexivity.
    + reflexivity.
  - apply (proj2 (evaluate_truncates (Some (21 # 2)) 5 10) (21 # 2) eq_refl).
    + discriminate.
    + apply Qeq_bool_iff. vm_compute. reflexivity.
    + discriminate.
  - apply (proj2 (evaluate_truncates (Some double_0_3) double_3_3 10) double_0_3 eq_refl).
    + discriminate.
    + discriminate.
    + discriminate.
Defined.

(** The boundary clause of C6 fails under a timeout of 999999, for an
    absent time stamp and for a device whose only packet arrived when the
    clock read 0.0: the loop stores the time stamp 0.0, the sweep then
    evaluates the age 999999, equal to the timeout, and the device is
    offline. *)
Lemma evaluate_boundary_sentinel :
  last_packet_ts epoch_state !! "kitchen" = Some 0
  /\ fst (evaluate (last_packet_ts epoch_state !! "kitchen") 5 999999) = 999999%Z
  /\ snd (evaluate (last_packet_ts epoch_state !! "kitchen") 5 999999) = false
  /\ fst (evaluate None 5 999999) = 999999%Z
  /\ snd (evaluate None 5 999999) = false.
Proof. repeat split; vm_compute; reflexivity. Qed.

(** C6, amended.  For every [lastSeenAt] and timeout, a later [now] never
    gives a smaller age, and a device that is offline stays offline.
    Without a time stamp, or with the time stamp 0.0, the age is 999999 and
    the device is offline for every [now].  For a recorded, non-zero time
    stamp [ts], online holds exactly when the age is at most the timeout, so
    in particular when they are equal; at [now = ts] the age is 0; and for a
    timeout below 2^53 in magnitude the device is online whenever
    [now - ts <= timeout] and offline whenever [now - ts >= timeout + 1]. *)
Theorem evaluate_monotone (lastSeenAt : option Q) (timeout : Z) (now1 now2 : Q) :
  now1 <= now2 ->
  (fst (evaluate lastSeenAt now1 timeout) <= fst (evaluate lastSeenAt now2 timeout))%Z
  /\ (snd (evaluate lastSeenAt now1 timeout) = false ->
      snd (evaluate lastSeenAt now2 timeout) = false)
  /\ (lastSeenAt = None \/ (exists ts, lastSeenAt = Some ts /\ ts == 0) ->
        forall now, evaluate lastSeenAt now timeout = (999999%Z, false))
  /\ (forall ts, lastSeenAt = Some ts -> ~ ts == 0 ->
        (forall now,
           snd (evaluate lastSeenAt now timeout) = true <->
           (fst (evaluate lastSeenAt now timeout) <= timeout)%Z)
        /\ evaluate lastSeenAt ts timeout = (0%Z, (0 <=? timeout)%Z)
        /\ ((- 2 ^ 53 < timeout < 2 ^ 53 - 1)%Z ->
            forall now,
              (now - ts <= inject_Z timeout ->
                 snd (evaluate lastSeenAt now timeout) = true)
              /\ (inject_Z timeout + 1 <= now - ts ->
                    snd (evaluate lastSeenAt now timeout) = false))).
Proof.
  intros Hle. split; [|split; [|split]].
  - apply evaluate_age_mono, Hle.
  - apply evaluate_online_antitone, Hle.
  - intros H now. apply evaluate_never.
    destruct H as [-> | (ts & -> & Hz)]; [reflexivity | exact Hz].
  - intros ts -> Hnz. split; [|split].
    + intros now. rewrite evaluate_seen by exact Hnz. cbn [fst snd].
      apply Z.leb_le.
    + rewrite evaluate_seen by exact Hnz.
      assert (H0 : Binary64.sub ts ts == inject_Z 0).
      { unfold Binary64.sub. rewrite (round_wd (ts - ts) 0) by ring. reflexivity. }
      rewrite (int_of_float_inject_Z 0 _ H0). reflexivity.
    + intros Ht now. apply evaluate_online_regions; assumption.
Qed.

Lemma evaluate_monotone_example :
  Z.le (fst (evaluate (Some 100) 105 10)) (fst (evaluate (Some 100) (221 # 2) 10))
  /\ (snd (evaluate (Some 100) 105 10) = false ->
      snd (evaluate (Some 100) (221 # 2) 10) = false)
  /\ evaluate (Some 100) 100 10 = (0%Z, true)
  /\ snd (evaluate (Some 100) 110 10) = true
  /\ snd (evaluate (Some 100) 111 10) = false.
Proof.
  assert (Hle : 105 <= 221 # 2) by discriminate.
  assert (Hnz : ~ 100 == 0) by discriminate.
  pose proof (evaluate_monotone (Some 100) 10 105 (221 # 2) Hle) as (H1 & H2 & _ & H3).
  destruct (H3 100 eq_refl Hnz) as (_ & H4 & H5).
  assert (Ht : (- 2 ^ 53 < 10 < 2 ^ 53 - 1)%Z) by lia.
  split; [exact H1|]. split; [exact H2|]. split; [exact H4|]. split.
  - apply (proj1 (H5 Ht 110)). discriminate.
  - apply (proj2 (H5 Ht 111)). discriminate.
Defined.

End Liveness.

(** * Topics *)

Section Topics.

Lemma append_nil (t : string) : ("" ++ t)%string = t.
Proof. reflexivity. Qed.

Lemma append_cons a (s t : string) : (String a s ++ t)%string = String a (s ++ t).
Proof. reflexivity. Qed.

Lemma last_char_app (s t : string) :
  last_char (s ++ t) = match last_char t with
                       | Some c => Some c
                       | None => last_char s
                       end.
Proof.
  induction s as [|a s IH].
  - rewrite append_nil. cbn [last_char]. destruct (last_char t); reflexivity.
  - rewrite append_cons. cbn [last_char]. rewrite IH.
    destruct (last_char t); reflexivity.
Qed.

Lemma list_ascii_of_string_app (s t : string) :
  list_ascii_of_string (s ++ t)
    = (list_ascii_of_string s ++ list_ascii_of_string t)%list.
Proof.
  induction s as [|a s IH]; [reflexivity|].
  rewrite append_cons. cbn [list_ascii_of_string app]. now rewrite IH.
Qed.

Lemma string_app_inv_tail (s1 s2 t : string) :
  (s1 ++ t)%string = (s2 ++ t)%string -> s1 = s2.
Proof.
  intros H. apply (f_equal list_ascii_of_string) in H.
  rewrite !list_ascii_of_string_app in H. apply app_inv_tail in H.
  rewrite <- (string_of_list_ascii_of_string s1), H.
  apply string_of_list_ascii_of_string.
Qed.

Lemma STATE_TOPIC_FORMAT_inj n n' :
  STATE_TOPIC_FORMAT n = STATE_TOPIC_FORMAT n' -> n = n'.
Proof.
  unfold STATE_TOPIC_FORMAT. intros H.
  apply (inj (String.append _)) in H. exact (string_app_inv_tail _ _ _ H).
Qed.

Lemma META_TOPIC_FORMAT_inj n n' :
  META_TOPIC_FORMAT n = META_TOPIC_FORMAT n' -> n = n'.
Proof.
  unfold META_TOPIC_FORMAT. intros H.
  apply (inj (String.append _)) in H. exact (string_app_inv_tail _ _ _ H).
Qed.

Lemma ONLINE_TOPIC_FORMAT_inj n n' :
  ONLINE_TOPIC_FORMAT n = ONLINE_TOPIC_FORMAT n' -> n = n'.
Proof.
  unfold ONLINE_TOPIC_FORMAT. intros H.
  apply (inj (String.append _)) in H. exact (string_app_inv_tail _ _ _ H).
Qed.

Lemma last_char_STATE n : last_char (STATE_TOPIC_FORMAT n) = Some "e"%char.
Proof. unfold STATE_TOPIC_FORMAT. now rewrite !last_char_app. Qed.

Lemma last_char_META n : last_char (META_TOPIC_FORMAT n) = Some "s"%char.
Proof. unfold META_TOPIC_FORMAT. now rewrite !last_char_app. Qed.

Lemma last_char_CONFIG_SENSOR uid : last_char (CONFIG_TOPIC_SENSOR uid) = Some "g"%char.
Proof. unfold CONFIG_TOPIC_SENSOR. now rewrite !last_char_app. Qed.

Lemma last_char_CONFIG_BIN uid : last_char (CONFIG_TOPIC_BIN uid) = Some "g"%char.
Proof. unfold CONFIG_TOPIC_BIN. now rewrite !last_char_app. Qed.

Lemma ONLINE_ne_sensor n (rest : string) :
  ONLINE_TOPIC_FORMAT n <> ("homeassistant/sensor/" ++ rest)%string.
Proof. unfold ONLINE_TOPIC_FORMAT. rewrite !append_cons. discriminate. Qed.

End Topics.

(** * The messages of each publishing function *)

Section Messages.

Lemma publish_discovery_all name :
  Forall (fun e => device_name_of e = Some name /\ topic_end e = Some "g"%char)
         (publish_discovery name).
Proof.
  unfold publish_discovery. cbn [map SENSORS app].
  repeat (apply List.Forall_cons;
          [split; [reflexivity|];
           unfold publish_sensor_config, topic_end; cbn [topic_of];
           first [apply last_char_CONFIG_SENSOR | apply last_char_CONFIG_BIN]|]).
  apply List.Forall_nil.
Qed.

Lemma publish_discovery_spec name e :
  e ∈ publish_discovery name ->
  device_name_of e = Some name /\ topic_end e = Some "g"%char.
Proof.
  revert e. apply Forall_forall, publish_discovery_all.
Qed.

Lemma publish_discovery_retained name e :
  e ∈ publish_discovery name -> retained e = true.
Proof.
  revert e. apply Forall_forall.
  unfold publish_discovery. cbn [map SENSORS app].
  repeat (apply List.Forall_cons; [reflexivity|]). apply List.Forall_nil.
Qed.

Lemma publish_discovery_NoDup name : NoDup (publish_discovery name).
Proof.
  apply (NoDup_fmap_1 label_of).
  change (label_of <$> publish_discovery name)
    with ["PM2.5"; "PM10"; "HCHO"; "TVOC"; "CO2"; "Temperature"; "Humidity";
          "Online"; "Seconds since last packet"].
  apply (bool_decide_unpack _). vm_compute. exact I.
Qed.

Lemma publish_state_spec name m e :
  e ∈ publish_state name m ->
  device_name_of e = None /\ topic_of e = Some (STATE_TOPIC_FORMAT name).
Proof.
  unfold publish_state. rewrite list_elem_of_singleton. intros ->.
  split; reflexivity.
Qed.

Lemma publish_meta_spec name age online e :
  e ∈ publish_meta name age online ->
  device_name_of e = None /\
  (topic_of e = Some (META_TOPIC_FORMAT name) \/
   topic_of e = Some (ONLINE_TOPIC_FORMAT name)).
Proof.
  unfold publish_meta. rewrite !elem_of_cons, elem_of_nil.
  intros [-> | [-> | []]]; split; auto.
Qed.

(** No message of the discovery or of the liveness report is on a state
    topic. *)
Lemma discovery_not_state name name' e :
  e ∈ publish_discovery name' -> topic_of e <> Some (STATE_TOPIC_FORMAT name).
Proof.
  intros He Ht. apply publish_discovery_spec in He as [_ Hend].
  unfold topic_end in Hend. rewrite Ht, last_char_STATE in Hend. discriminate Hend.
Qed.

Lemma meta_not_state name name' age online e :
  e ∈ publish_meta name' age online -> topic_of e <> Some (STATE_TOPIC_FORMAT name).
Proof.
  intros He Ht. apply publish_meta_spec in He as [_ [H|H]];
    rewrite H in Ht; apply (inj Some) in Ht.
  - apply (f_equal last_char) in Ht.
    rewrite last_char_META, last_char_STATE in Ht. discriminate Ht.
  - exact (ONLINE_ne_sensor _ _ Ht).
Qed.

End Messages.

(** * The bridge loop *)

Section Loop.

Variable opts : Options.

(** ** One iteration *)

(** What [ingest] does with a datagram that decodes. *)
Lemma ingest_decoded now data ip m st :
  parse_packet data = Returned (Some m) ->
  let name := get_name_by_ip ip (addr_to_name opts) in
  ingest opts now (Datagram data ip) st =
    ({| known_names :=
          if not_known name st then {[name]} ∪ known_names st else known_names st;
        last_packet_ts := <[name := now]> (last_packet_ts st);
        next_meta_ts := next_meta_ts st |},
     (if not_known name st then publish_discovery name else [])
       ++ publish_state name m,
     None).
Proof.
  intros Hm name. unfold ingest. rewrite Hm. fold name.
  destruct (not_known name st); reflexivity.
Qed.

(** Every other result of the socket leaves the variables alone and
    publishes nothing. *)
Lemma ingest_cases now r st :
  (exists s, ingest opts now r st = (st, [], s)) \/
  (exists data ip m, r = Datagram data ip /\ parse_packet data = Returned (Some m)).
Proof.
  destruct r as [data ip| | |]; try (left; eexists; reflexivity).
  destruct (parse_packet data) as [[m|]|e] eqn:E.
  - right. eauto.
  - left. exists None. unfold ingest. now rewrite E.
  - left. exists (Some Fatal). unfold ingest. now rewrite E.
Qed.

Lemma decodes_for_spec name data ip :
  decodes_for opts name (Datagram data ip) = true <->
  get_name_by_ip ip (addr_to_name opts) = name /\
  exists m, parse_packet data = Returned (Some m).
Proof.
  unfold decodes_for. rewrite andb_true_iff, bool_decide_eq_true.
  destruct (parse_packet data) as [[m|]|e]; split; intros [H1 H2];
    first [discriminate H2 | now destruct H2 | eauto].
Qed.

Lemma not_known_true name st : not_known name st = true <-> name ∉ known_names st.
Proof. apply bool_decide_eq_true. Qed.

Lemma not_known_false name st : not_known name st = false <-> name ∈ known_names st.
Proof.
  unfold not_known. rewrite bool_decide_eq_false.
  destruct (decide (name ∈ known_names st)); tauto.
Qed.

Lemma sweep_known_names now st : known_names (fst (sweep opts now st)) = known_names st.
Proof. unfold sweep. destruct (Qle_bool _ _); reflexivity. Qed.

Lemma sweep_last_packet_ts now st :
  last_packet_ts (fst (sweep opts now st)) = last_packet_ts st.
Proof. unfold sweep. destruct (Qle_bool _ _); reflexivity. Qed.

(** A sweep publishes liveness reports only. *)
Lemma sweep_out now st e :
  e ∈ snd (sweep opts now st) ->
  exists name age online, e ∈ publish_meta name age online.
Proof.
  unfold sweep. destruct (Qle_bool _ _); cbn [snd]; [|now rewrite elem_of_nil].
  rewrite list_elem_of_In, in_flat_map. intros (name & _ & He).
  destruct (evaluate _ _ _) as [age online].
  exists name, age, online. now apply list_elem_of_In.
Qed.

Lemma iteration_eq now r st :
  iteration opts now r st =
    match ingest opts now r st with
    | (st1, out1, Some s) => (st1, out1, Some s)
    | (st1, out1, None) =>
        (fst (sweep opts now st1), out1 ++ snd (sweep opts now st1), None)
    end.
Proof.
  unfold iteration. destruct (ingest opts now r st) as [[st1 out1] [s|]]; [reflexivity|].
  destruct (sweep opts now st1); reflexivity.
Qed.

(** The names known after an iteration: those known before, and the name
    of a datagram that decoded. *)
Lemma iteration_known_names now r st name :
  name ∈ known_names (fst (fst (iteration opts now r st))) <->
  name ∈ known_names st \/ decodes_for opts name r = true.
Proof.
  rewrite iteration_eq.
  destruct (ingest_cases now r st) as [[s Hs] | (data & ip & m & -> & Hm)].
  - rewrite Hs.
    assert (Hd : decodes_for opts name r = false).
    { destruct r as [data ip| | |]; try reflexivity.
      unfold decodes_for. unfold ingest in Hs.
      destruct (parse_packet data) as [[m|]|e]; try apply andb_false_r.
      destruct (not_known _ st); discriminate Hs. }
    rewrite Hd. destruct s; cbn [fst]; rewrite ?sweep_known_names;
      intuition discriminate.
  - rewrite (ingest_decoded now data ip m st Hm). cbn [fst].
    rewrite sweep_known_names. cbn [known_names].
    rewrite decodes_for_spec.
    destruct (not_known _ st) eqn:Hk.
    + rewrite elem_of_union, elem_of_singleton. split.
      * intros [-> | H]; [right; eauto | left; exact H].
      * intros [H | [<- _]]; [right; exact H | left; reflexivity].
    + apply not_known_false in Hk. split; [tauto|].
      intros [H | [<- _]]; assumption.
Qed.

(** Where the messages of an iteration come from. *)
Lemma iteration_out now r st e :
  e ∈ snd (fst (iteration opts now r st)) ->
  (exists name age online, e ∈ publish_meta name age online) \/
  (exists data ip m,
      r = Datagram data ip /\ parse_packet data = Returned (Some m) /\
      (e ∈ publish_state (get_name_by_ip ip (addr_to_name opts)) m \/
       (not_known (get_name_by_ip ip (addr_to_name opts)) st = true /\
        e ∈ publish_discovery (get_name_by_ip ip (addr_to_name opts))))).
Proof.
  rewrite iteration_eq.
  destruct (ingest_cases now r st) as [[s Hs] | (data & ip & m & -> & Hm)].
  - rewrite Hs. destruct s; cbn [fst snd app]; [now rewrite elem_of_nil|].
    intros He. left. eapply sweep_out, He.
  - rewrite (ingest_decoded now data ip m st Hm). cbn [fst snd].
    rewrite !elem_of_app. intros [[Hd | Hs] | Hw].
    + right. exists data, ip, m. split; [reflexivity|]. split; [exact Hm|].
      right. destruct (not_known _ st); [auto | now apply elem_of_nil in Hd].
    + right. exists data, ip, m. auto.
    + left. eapply sweep_out, Hw.
Qed.

(** An iteration without a valid packet for [name] publishes neither a
    discovery message of [name] nor anything on its state topic. *)
Lemma iteration_out_quiet now r st name e :
  decodes_for opts name r = false ->
  e ∈ snd (fst (iteration opts now r st)) ->
  device_name_of e <> Some name /\ topic_of e <> Some (STATE_TOPIC_FORMAT name).
Proof.
  intros Hd He.
  apply iteration_out in He
    as [(n & age & online & He) | (data & ip & m & -> & Hm & He)].
  - split; [|eapply meta_not_state, He].
    apply publish_meta_spec in He as [-> _]. discriminate.
  - assert (Hne : get_name_by_ip ip (addr_to_name opts) <> name).
    { intros Heq. rewrite (proj2 (decodes_for_spec name data ip)) in Hd by eauto.
      discriminate Hd. }
    destruct He as [He | [_ He]].
    + apply publish_state_spec in He as [-> ->]. split; [discriminate|].
      intros Ht. apply (inj Some), STATE_TOPIC_FORMAT_inj in Ht. contradiction.
    + split; [|eapply discovery_not_state, He].
      apply publish_discovery_spec in He as [-> _]. congruence.
Qed.

(** Once [name] is known, no iteration publishes its discovery again. *)
Lemma iteration_out_known now r st name e :
  name ∈ known_names st ->
  e ∈ snd (fst (iteration opts now r st)) ->
  device_name_of e <> Some name.
Proof.
  intros Hk He.
  apply iteration_out in He
    as [(n & age & online & He) | (data & ip & m & -> & Hm & [He | [Hn He]])].
  - apply publish_meta_spec in He as [-> _]. discriminate.
  - apply publish_state_spec in He as [-> _]. discriminate.
  - apply publish_discovery_spec in He as [-> _].
    apply not_known_true in Hn. congruence.
Qed.

(** ** Runs of the loop *)

Lemma loop_cons now r rest st :
  loop opts ((now, r) :: rest) st =
    match iteration opts now r st with
    | (st1, out1, Some s) => (st1, out1, Some s)
    | (st1, out1, None) =>
        (fst (fst (loop opts rest st1)),
         out1 ++ snd (fst (loop opts rest st1)),
         snd (loop opts rest st1))
    end.
Proof.
  cbn [loop]. destruct (iteration opts now r st) as [[st1 out1] [s|]]; [reflexivity|].
  destruct (loop opts rest st1) as [[st2 out2] s]. reflexivity.
Qed.

Lemma loop_app pre post : forall st,
  loop opts (pre ++ post) st =
    match loop opts pre st with
    | (st1, out1, Some s) => (st1, out1, Some s)
    | (st1, out1, None) =>
        (fst (fst (loop opts post st1)),
         out1 ++ snd (fst (loop opts post st1)),
         snd (loop opts post st1))
    end.
Proof.
  induction pre as [|[now r] pre IH]; intros st.
  - cbn [app loop]. destruct (loop opts post st) as [[st2 out2] s]. reflexivity.
  - rewrite <- app_comm_cons, !loop_cons.
    destruct (iteration opts now r st) as [[st1 out1] [s|]]; [reflexivity|].
    rewrite IH. destruct (loop opts pre st1) as [[st2 out2] [s|]]; cbn [fst snd].
    + reflexivity.
    + now rewrite app_assoc.
Qed.

(** Names are never forgotten. *)
Lemma loop_known_mono inputs name : forall st,
  name ∈ known_names st ->
  name ∈ known_names (fst (fst (loop opts inputs st))).
Proof.
  induction inputs as [|[now r] rest IH]; intros st Hk; [exact Hk|].
  rewrite loop_cons.
  pose proof (proj2 (iteration_known_names now r st name) (or_introl Hk)) as H1.
  destruct (iteration opts now r st) as [[st1 out1] [s|]]; cbn [fst] in *;
    [exact H1 | apply IH, H1].
Qed.

(** Without a valid packet for it, a name does not become known. *)
Lemma loop_unknown inputs name : forall st,
  Forall (fun i => decodes_for opts name (snd i) = false) inputs ->
  name ∉ known_names st ->
  name ∉ known_names (fst (fst (loop opts inputs st))).
Proof.
  induction inputs as [|[now r] rest IH]; intros st Hall Hk; [exact Hk|].
  apply Forall_cons in Hall as [Hd Hall]. cbn [snd] in Hd.
  rewrite loop_cons.
  assert (H1 : name ∉ known_names (fst (fst (iteration opts now r st)))).
  { rewrite iteration_known_names, Hd. intros [H|H]; [contradiction | discriminate]. }
  destruct (iteration opts now r st) as [[st1 out1] [s|]]; cbn [fst] in *;
    [exact H1 | apply IH; assumption].
Qed.

Lemma loop_out_quiet inputs name e : forall st,
  Forall (fun i => decodes_for opts name (snd i) = false) inputs ->
  e ∈ snd (fst (loop opts inputs st)) ->
  device_name_of e <> Some name /\ topic_of e <> Some (STATE_TOPIC_FORMAT name).
Proof.
  induction inputs as [|[now r] rest IH]; intros st Hall He;
    [now apply elem_of_nil in He|].
  apply Forall_cons in Hall as [Hd Hall]. cbn [snd] in Hd.
  rewrite loop_cons in He.
  pose proof (iteration_out_quiet now r st name e Hd) as H1.
  destruct (iteration opts now r st) as [[st1 out1] [s|]]; cbn [fst snd] in *;
    [exact (H1 He)|].
  apply elem_of_app in He as [He|He]; [exact (H1 He) | exact (IH st1 Hall He)].
Qed.

Lemma loop_out_known inputs name e : forall st,
  name ∈ known_names st ->
  e ∈ snd (fst (loop opts inputs st)) ->
  device_name_of e <> Some name.
Proof.
  induction inputs as [|[now r] rest IH]; intros st Hk He;
    [now apply elem_of_nil in He|].
  rewrite loop_cons in He.
  pose proof (iteration_out_known now r st name e Hk) as H1.
  pose proof (proj2 (iteration_known_names now r st name) (or_introl Hk)) as H2.
  destruct (iteration opts now r st) as [[st1 out1] [s|]]; cbn [fst snd] in *;
    [exact (H1 He)|].
  apply elem_of_app in He as [He|He]; [exact (H1 He) | exact (IH st1 H2 He)].
Qed.

(** The [finally] block publishes liveness reports, then releases the
    socket and the client. *)
Lemma finally_out st now e :
  e ∈ finally st now ->
  (exists name age, e ∈ publish_meta name age false) \/ e = SockClose \/ e = LoopStop.
Proof.
  unfold finally. rewrite elem_of_app, !elem_of_cons, elem_of_nil.
  intros [He | [-> | [-> | []]]]; auto.
  left. apply list_elem_of_In, in_flat_map in He as (name & _ & He).
  eexists _, _. apply list_elem_of_In, He.
Qed.

Lemma finally_no_discovery st now e :
  e ∈ finally st now -> device_name_of e = None.
Proof.
  intros He. apply finally_out in He as [(name & age & He) | [-> | ->]];
    try reflexivity.
  now apply publish_meta_spec in He as [-> _].
Qed.

End Loop.

(** * Liveness reports per device *)

Section Reports.

Lemma on_topic_none topic (out : list effect) :
  (forall e, e ∈ out -> topic_of e <> Some topic) ->
  on_topic topic out = [].
Proof.
  unfold on_topic. induction out as [|e out IH]; intros H; [reflexivity|].
  rewrite filter_cons_False by (apply H; left).
  apply IH. intros e' He'. apply H. now right.
Qed.

(** On a list of distinct names, the messages on a topic that only the
    report of [name] uses are those of the report of [name]. *)
Lemma on_topic_flat_map (f : string -> list effect) topic name (names : list string) :
  NoDup names ->
  name ∈ names ->
  (forall n e, e ∈ f n -> topic_of e = Some topic -> n = name) ->
  on_topic topic (flat_map f names) = on_topic topic (f name).
Proof.
  intros Hnd Hin Hf. induction Hnd as [|n names Hn Hnd IH]; [now apply elem_of_nil in Hin|].
  cbn [flat_map]. unfold on_topic in *. rewrite filter_app.
  apply elem_of_cons in Hin as [<- | Hin].
  - fold (on_topic topic (flat_map f names)).
    rewrite on_topic_none; [apply app_nil_r|].
    intros e He Ht.
    apply list_elem_of_In, in_flat_map in He as (n & Hn' & He).
    apply list_elem_of_In in Hn', He.
    rewrite (Hf n e He Ht) in Hn'. contradiction.
  - rewrite (IH Hin).
    fold (on_topic topic (f n)). rewrite on_topic_none; [reflexivity|].
    intros e He Ht. rewrite (Hf n e He Ht) in Hn. contradiction.
Qed.

Lemma on_topic_META_report name n age online e :
  e ∈ publish_meta n age online ->
  topic_of e = Some (META_TOPIC_FORMAT name) -> n = name.
Proof.
  unfold publish_meta. rewrite !elem_of_cons, elem_of_nil.
  intros [-> | [-> | []]]; cbn [topic_of]; intros Ht; apply (inj Some) in Ht.
  - now apply META_TOPIC_FORMAT_inj.
  - exfalso. exact (ONLINE_ne_sensor _ _ Ht).
Qed.

Lemma on_topic_ONLINE_report name n age online e :
  e ∈ publish_meta n age online ->
  topic_of e = Some (ONLINE_TOPIC_FORMAT name) -> n = name.
Proof.
  unfold publish_meta. rewrite !elem_of_cons, elem_of_nil.
  intros [-> | [-> | []]]; cbn [topic_of]; intros Ht; apply (inj Some) in Ht.
  - exfalso. symmetry in Ht. exact (ONLINE_ne_sensor _ _ Ht).
  - now apply ONLINE_TOPIC_FORMAT_inj.
Qed.

Lemma on_topic_META_publish_meta name age online :
  on_topic (META_TOPIC_FORMAT name) (publish_meta name age online)
    = [Publish (META_TOPIC_FORMAT name) (Text (str_int age)) true].
Proof.
  unfold on_topic, publish_meta.
  rewrite filter_cons_True by reflexivity.
  rewrite filter_cons_False; [reflexivity|].
  cbn [topic_of]. intros Ht. apply (inj Some) in Ht.
  exact (ONLINE_ne_sensor _ _ Ht).
Qed.

Lemma on_topic_ONLINE_publish_meta name age online :
  on_topic (ONLINE_TOPIC_FORMAT name) (publish_meta name age online)
    = [Publish (ONLINE_TOPIC_FORMAT name) (Text (if online then "ON" else "OFF")) true].
Proof.
  unfold on_topic, publish_meta.
  rewrite filter_cons_False.
  - rewrite filter_cons_True by reflexivity. reflexivity.
  - cbn [topic_of]. intros Ht. apply (inj Some) in Ht. symmetry in Ht.
    exact (ONLINE_ne_sensor _ _ Ht).
Qed.

End Reports.

(** * Properties of the bridge *)

Section Bridge.

(** C10.  In a sweep that is due, a known name without a recorded time
    stamp, or with the recorded time stamp 0.0, gets exactly one message on
    its age topic, with the text 999999, and exactly one on its online
    topic, with the text OFF. *)
Theorem sweep_never_seen (opts : Options) (now : Q) (st : Bridge) (name : string) :
  Qle_bool (next_meta_ts st) now = true ->
  name ∈ known_names st ->
  (last_packet_ts st !! name = None \/
   exists ts, last_packet_ts st !! name = Some ts /\ (ts == 0)%Q) ->
  evaluate (last_packet_ts st !! name) now (online_timeout_s opts) = (999999, false)
  /\ on_topic (META_TOPIC_FORMAT name) (snd (sweep opts now st))
       = [Publish (META_TOPIC_FORMAT name) (Text "999999") true]
  /\ on_topic (ONLINE_TOPIC_FORMAT name) (snd (sweep opts now st))
       = [Publish (ONLINE_TOPIC_FORMAT name) (Text "OFF") true].
Proof.
  intros Hdue Hk Hts.
  assert (Hev : evaluate (last_packet_ts st !! name) now (online_timeout_s opts)
                = (999999, false)).
  { apply evaluate_never. destruct Hts as [-> | (ts & -> & Hz)];
      [reflexivity | exact Hz]. }
  split; [exact Hev|].
  unfold sweep. rewrite Hdue. cbn [snd].
  split.
  - rewrite (on_topic_flat_map _ _ name).
    + rewrite Hev. apply on_topic_META_publish_meta.
    + apply NoDup_elements.
    + apply elem_of_elements, Hk.
    + intros n e. destruct (evaluate _ _ _). apply on_topic_META_report.
  - rewrite (on_topic_flat_map _ _ name).
    + rewrite Hev. apply on_topic_ONLINE_publish_meta.
    + apply NoDup_elements.
    + apply elem_of_elements, Hk.
    + intros n e. destruct (evaluate _ _ _). apply on_topic_ONLINE_report.
Qed.

(** C5.  When the loop is left by an exception, [main] ends with the
    liveness reports of the [finally] block followed by the release of the
    socket and of the client; among these reports every known name has
    exactly one message on its online topic, with the text OFF whatever its
    age, and exactly one on its age topic. *)
Theorem shutdown_marks_offline (opts : Options) (start : Q)
    (inputs : list (Q * recv)) (exit_time : Q)
    (st : Bridge) (out : list effect) (s : stop) :
  loop opts inputs (initial opts start) = (st, out, Some s) ->
  exists reports,
    main opts start inputs exit_time
      = (out ++ reports ++ [SockClose; LoopStop], Some s)
    /\ (forall e, e ∈ reports -> e <> SockClose /\ e <> LoopStop)
    /\ forall name, name ∈ known_names st ->
         on_topic (ONLINE_TOPIC_FORMAT name) reports
           = [Publish (ONLINE_TOPIC_FORMAT name) (Text "OFF") true]
         /\ exists age,
              on_topic (META_TOPIC_FORMAT name) reports
                = [Publish (META_TOPIC_FORMAT name) (Text (str_int age)) true].
Proof.
  intros Hloop. unfold main. rewrite Hloop. unfold finally.
  eexists. split; [reflexivity|]. split.
  - intros e He.
    apply list_elem_of_In, in_flat_map in He as (n & _ & He).
    apply list_elem_of_In in He. unfold publish_meta in He.
    rewrite !elem_of_cons, elem_of_nil in He.
    destruct He as [-> | [-> | []]]; split; discriminate.
  - intros name Hk. split.
    + rewrite (on_topic_flat_map _ _ name).
      * apply on_topic_ONLINE_publish_meta.
      * apply NoDup_elements.
      * apply elem_of_elements, Hk.
      * intros n e. apply on_topic_ONLINE_report.
    + eexists. rewrite (on_topic_flat_map _ _ name).
      * apply on_topic_META_publish_meta.
      * apply NoDup_elements.
      * apply elem_of_elements, Hk.
      * intros n e. apply on_topic_META_report.
Qed.

(** C8.  A datagram shorter than 37 bytes changes nothing: [ingest] returns
    the variables as they were and publishes nothing, and the iteration is
    the one of a timeout. *)
Theorem short_datagram_ignored (opts : Options) (now : Q) (data : list byte)
    (ip : string) (st : Bridge) :
  (length data < 37)%nat ->
  ingest opts now (Datagram data ip) st = (st, [], None)
  /\ iteration opts now (Datagram data ip) st = iteration opts now Timeout st.
Proof.
  intros Hlen.
  assert (H : ingest opts now (Datagram data ip) st = (st, [], None)).
  { unfold ingest, parse_packet.
    destruct (Z.ltb_spec (Z.of_nat (length data)) (23 + 14)); [reflexivity | lia]. }
  split; [exact H|]. unfold iteration. rewrite H. reflexivity.
Qed.

(** C7.  In the state reached from the start of [main] without any valid
    packet for [name], the first valid packet for [name] finds the name
    unknown (the session is new) and records [now] as its time stamp; in
    every state reached afterwards the name is known (the session is not
    new), and a further valid packet records its own [now]. *)
Theorem first_packet_is_new (opts : Options) (start : Q) (pre : list (Q * recv))
    (now : Q) (data : list byte) (ip : string) (m : Measurement) (name : string) :
  get_name_by_ip ip (addr_to_name opts) = name ->
  parse_packet data = Returned (Some m) ->
  Forall (fun i => decodes_for opts name (snd i) = false) pre ->
  let st := fst (fst (loop opts pre (initial opts start))) in
  let st1 := fst (fst (iteration opts now (Datagram data ip) st)) in
  not_known name st = true
  /\ name ∈ known_names st1
  /\ last_packet_ts st1 !! name = Some now
  /\ forall (mid : list (Q * recv)) (now2 : Q) (data2 : list byte) (ip2 : string)
            (m2 : Measurement),
       get_name_by_ip ip2 (addr_to_name opts) = name ->
       parse_packet data2 = Returned (Some m2) ->
       let st2 := fst (fst (loop opts mid st1)) in
       not_known name st2 = false
       /\ last_packet_ts (fst (fst (iteration opts now2 (Datagram data2 ip2) st2)))
            !! name = Some now2.
Proof.
  intros Hname Hm Hpre st st1.
  assert (Hstamp : forall now' data' ip' m' st',
             get_name_by_ip ip' (addr_to_name opts) = name ->
             parse_packet data' = Returned (Some m') ->
             last_packet_ts (fst (fst (iteration opts now' (Datagram data' ip') st')))
               !! name = Some now').
  { intros now' data' ip' m' st' Hn' Hm'.
    rewrite iteration_eq, (ingest_decoded opts now' data' ip' m' st' Hm').
    cbn [fst]. rewrite sweep_last_packet_ts. cbn [last_packet_ts].
    rewrite Hn'. apply lookup_insert_eq. }
  assert (Hk1 : name ∈ known_names st1).
  { apply iteration_known_names. right. apply decodes_for_spec. eauto. }
  split; [|split; [exact Hk1 | split; [exact (Hstamp _ _ _ _ _ Hname Hm)|]]].
  - apply not_known_true, loop_unknown; [exact Hpre|]. apply not_elem_of_empty.
  - intros mid now2 data2 ip2 m2 Hname2 Hm2 st2. split.
    + apply not_known_false, loop_known_mono, Hk1.
    + exact (Hstamp _ _ _ _ _ Hname2 Hm2).
Qed.

(** C4.  Let the first valid packet for [name] arrive after the inputs
    [pre], which the loop has run through.  Then the trace of [main] is the
    trace [out_pre] of [pre], the discovery messages of [name], the
    measurement on the state topic of [name], and a rest [out_post].  The
    discovery messages are the nine retained configuration messages of the
    device, on the nine configuration topics of [name]; they are pairwise
    distinct and occur neither in [out_pre] nor in [out_post]; nothing in
    [out_pre] and no discovery message is on the state topic of [name], so
    the first message of the trace on that topic is this measurement; and
    every later valid packet for [name] makes [ingest] publish its
    measurement only. *)
Theorem discovery_once (opts : Options) (start : Q) (pre post : list (Q * recv))
    (now : Q) (data : list byte) (ip : string) (m : Measurement) (exit_time : Q)
    (name : string) (st : Bridge) (out_pre : list effect) :
  get_name_by_ip ip (addr_to_name opts) = name ->
  parse_packet data = Returned (Some m) ->
  Forall (fun i => decodes_for opts name (snd i) = false) pre ->
  loop opts pre (initial opts start) = (st, out_pre, None) ->
  exists out_post,
    fst (main opts start (pre ++ (now, Datagram data ip) :: post) exit_time)
      = out_pre ++ publish_discovery name ++ publish_state name m ++ out_post
    /\ publish_state name m
         = [Publish (STATE_TOPIC_FORMAT name) (Dumps (json_of_measurement m)) false]
    /\ topic_of <$> publish_discovery name
         = [ Some (CONFIG_TOPIC_SENSOR (name ++ "_pm25"));
             Some (CONFIG_TOPIC_SENSOR (name ++ "_pm10"));
             Some (CONFIG_TOPIC_SENSOR (name ++ "_hcho"));
             Some (CONFIG_TOPIC_SENSOR (name ++ "_tvoc"));
             Some (CONFIG_TOPIC_SENSOR (name ++ "_co2"));
             Some (CONFIG_TOPIC_SENSOR (name ++ "_temperature"));
             Some (CONFIG_TOPIC_SENSOR (name ++ "_humidity"));
             Some (CONFIG_TOPIC_BIN (name ++ "_online"));
             Some (CONFIG_TOPIC_SENSOR (name ++ "_last_packet_s")) ]
    /\ (forall e, e ∈ publish_discovery name ->
          retained e = true /\ device_name_of e = Some name)
    /\ NoDup (publish_discovery name)
    /\ (forall e, e ∈ publish_discovery name ->
          (e ∉ out_pre) /\ (e ∉ out_post)
          /\ topic_of e <> Some (STATE_TOPIC_FORMAT name))
    /\ (forall e, e ∈ out_pre -> topic_of e <> Some (STATE_TOPIC_FORMAT name))
    /\ on_topic (STATE_TOPIC_FORMAT name)
         (fst (main opts start (pre ++ (now, Datagram data ip) :: post) exit_time))
         = Publish (STATE_TOPIC_FORMAT name) (Dumps (json_of_measurement m)) false
             :: on_topic (STATE_TOPIC_FORMAT name) out_post
    /\ forall (mid : list (Q * recv)) (now2 : Q) (data2 : list byte) (ip2 : string)
              (m2 : Measurement),
         get_name_by_ip ip2 (addr_to_name opts) = name ->
         parse_packet data2 = Returned (Some m2) ->
         let st1 := fst (fst (iteration opts now (Datagram data ip) st)) in
         let st2 := fst (fst (loop opts mid st1)) in
         snd (fst (ingest opts now2 (Datagram data2 ip2) st2))
           = [Publish (STATE_TOPIC_FORMAT name) (Dumps (json_of_measurement m2)) false].
Proof.
  intros Hname Hm Hpre Hloop.
  assert (Hnew : not_known name st = true).
  { apply not_known_true.
    replace st with (fst (fst (loop opts pre (initial opts start))))
      by now rewrite Hloop.
    apply loop_unknown; [exact Hpre | apply not_elem_of_empty]. }
  assert (Hk1 : name ∈ known_names
                  (fst (fst (iteration opts now (Datagram data ip) st)))).
  { apply iteration_known_names. right. apply decodes_for_spec. eauto. }
  assert (Hit : iteration opts now (Datagram data ip) st
                = (fst (fst (iteration opts now (Datagram data ip) st)),
                   (publish_discovery name ++ publish_state name m)
                     ++ snd (sweep opts now (fst (fst (ingest opts now (Datagram data ip) st)))),
                   None)).
  { rewrite iteration_eq, (ingest_decoded opts now data ip m st Hm).
    rewrite Hname, Hnew. reflexivity. }
  set (st1 := fst (fst (iteration opts now (Datagram data ip) st))) in *.
  set (out_sweep := snd (sweep opts now _)) in Hit.
  destruct (loop opts post st1) as [[st2 out2] s] eqn:Hpost.
  set (out_post := out_sweep ++ out2 ++ match s with
                                        | Some _ => finally st2 exit_time
                                        | None => []
                                        end).
  assert (Htrace :
            fst (main opts start (pre ++ (now, Datagram data ip) :: post) exit_time)
              = out_pre ++ publish_discovery name ++ publish_state name m ++ out_post).
  { unfold main, out_post. rewrite loop_app, Hloop, loop_cons, Hit, Hpost. cbn [fst snd].
    destruct s; cbn [fst]; rewrite <- ?app_assoc, ?app_nil_r; reflexivity. }
  assert (Hpre_quiet : forall e, e ∈ out_pre ->
                         device_name_of e <> Some name
                         /\ topic_of e <> Some (STATE_TOPIC_FORMAT name)).
  { intros e Hin.
    assert (Hin' : e ∈ snd (fst (loop opts pre (initial opts start))))
      by now rewrite Hloop.
    exact (loop_out_quiet opts pre name e _ Hpre Hin'). }
  exists out_post.
  split; [exact Htrace|]. split; [reflexivity|]. split; [reflexivity|].
  split; [|split; [apply publish_discovery_NoDup | split; [|split; [|split]]]].
  - intros e He. split; [exact (publish_discovery_retained name e He)|].
    exact (proj1 (publish_discovery_spec name e He)).
  - intros e He.
    pose proof (publish_discovery_spec name e He) as [Hdev _].
    split; [|split].
    + intros Hin. exact (proj1 (Hpre_quiet e Hin) Hdev).
    + unfold out_post. rewrite !elem_of_app. intros [Hin | [Hin | Hin]].
      * apply sweep_out in Hin as (n & age & online & Hin).
        apply publish_meta_spec in Hin as [Hnone _]. congruence.
      * assert (Hin' : e ∈ snd (fst (loop opts post st1))) by now rewrite Hpost.
        exact (loop_out_known opts post name e st1 Hk1 Hin' Hdev).
      * destruct s; [|now apply elem_of_nil in Hin].
        apply finally_no_discovery in Hin. congruence.
    + eapply discovery_not_state, He.
  - intros e Hin. exact (proj2 (Hpre_quiet e Hin)).
  - rewrite Htrace. unfold on_topic. rewrite !filter_app.
    fold (on_topic (STATE_TOPIC_FORMAT name) out_pre).
    fold (on_topic (STATE_TOPIC_FORMAT name) (publish_discovery name)).
    rewrite (on_topic_none _ out_pre) by (intros e Hin; exact (proj2 (Hpre_quiet e Hin))).
    rewrite (on_topic_none _ (publish_discovery name))
      by (intros e He; eapply discovery_not_state, He).
    unfold publish_state. rewrite filter_cons_True by reflexivity. reflexivity.
  - intros mid now2 data2 ip2 m2 Hname2 Hm2. cbv zeta.
    rewrite (ingest_decoded opts now2 data2 ip2 m2 _ Hm2). cbn [fst snd].
    rewrite Hname2.
    rewrite (proj2 (not_known_false name _) (loop_known_mono opts mid name st1 Hk1)).
    reflexivity.
Qed.

(** ** The properties on the run [demo_run] *)

Lemma sweep_never_seen_example :
  evaluate (last_packet_ts epoch_state !! "kitchen") 5 (online_timeout_s demo_opts)
    = (999999, false)
  /\ on_topic (META_TOPIC_FORMAT "kitchen") (snd (sweep demo_opts 5 epoch_state))
       = [Publish (META_TOPIC_FORMAT "kitchen") (Text "999999") true]
  /\ on_topic (ONLINE_TOPIC_FORMAT "kitchen") (snd (sweep demo_opts 5 epoch_state))
       = [Publish (ONLINE_TOPIC_FORMAT "kitchen") (Text "OFF") true].
Proof.
  apply (sweep_never_seen demo_opts 5 epoch_state "kitchen").
  - vm_compute. reflexivity.
  - apply (bool_decide_unpack _). vm_compute. exact I.
  - right. exists 0%Q. split; [vm_compute; reflexivity | reflexivity].
Defined.

Lemma shutdown_marks_offline_example :
  exists reports,
    main demo_opts 100 demo_run 116
      = (snd (fst (loop demo_opts demo_run (initial demo_opts 100)))
           ++ reports ++ [SockClose; LoopStop],
         Some Interrupted)
    /\ (forall e, e ∈ reports -> e <> SockClose /\ e <> LoopStop)
    /\ forall name,
         name ∈ known_names (fst (fst (loop demo_opts demo_run (initial demo_opts 100)))) ->
         on_topic (ONLINE_TOPIC_FORMAT name) reports
           = [Publish (ONLINE_TOPIC_FORMAT name) (Text "OFF") true]
         /\ exists age,
              on_topic (META_TOPIC_FORMAT name) reports
                = [Publish (META_TOPIC_FORMAT name) (Text (str_int age)) true].
Proof.
  apply (shutdown_marks_offline demo_opts 100 demo_run 116).
  vm_compute. reflexivity.
Defined.

Lemma short_datagram_ignored_example :
  ingest demo_opts 101 (Datagram (repeat x00 10) "10.0.0.5") (initial demo_opts 100)
    = (initial demo_opts 100, [], None)
  /\ iteration demo_opts 101 (Datagram (repeat x00 10) "10.0.0.5") (initial demo_opts 100)
     = iteration demo_opts 101 Timeout (initial demo_opts 100).
Proof.
  apply (short_datagram_ignored demo_opts 101 (repeat x00 10) "10.0.0.5").
  cbn. lia.
Defined.

Lemma first_packet_is_new_example :
  let st := fst (fst (loop demo_opts demo_pre (initial demo_opts 100))) in
  let st1 := fst (fst (iteration demo_opts 103 (Datagram scenario_A "10.0.0.5") st)) in
  not_known "kitchen" st = true
  /\ "kitchen" ∈ known_names st1
  /\ last_packet_ts st1 !! "kitchen" = Some 103%Q
  /\ forall (mid : list (Q * recv)) (now2 : Q) (data2 : list byte) (ip2 : string)
            (m2 : Measurement),
       get_name_by_ip ip2 (addr_to_name demo_opts) = "kitchen" ->
       parse_packet data2 = Returned (Some m2) ->
       let st2 := fst (fst (loop demo_opts mid st1)) in
       not_known "kitchen" st2 = false
       /\ last_packet_ts
            (fst (fst (iteration demo_opts now2 (Datagram data2 ip2) st2)))
            !! "kitchen" = Some now2.
Proof.
  apply (first_packet_is_new demo_opts 100 demo_pre 103 scenario_A "10.0.0.5"
           measurement_A "kitchen").
  - vm_compute. reflexivity.
  - vm_compute. reflexivity.
  - repeat constructor.
Defined.

Lemma discovery_once_example :
  exists out_post,
    fst (main demo_opts 100 demo_run 116)
      = snd (fst (loop demo_opts demo_pre (initial demo_opts 100)))
          ++ publish_discovery "kitchen"
          ++ publish_state "kitchen" measurement_A ++ out_post
    /\ publish_state "kitchen" measurement_A
         = [Publish (STATE_TOPIC_FORMAT "kitchen")
              (Dumps (json_of_measurement measurement_A)) false]
    /\ topic_of <$> publish_discovery "kitchen"
         = [ Some "homeassistant/sensor/kitchen_pm25/config";
             Some "homeassistant/sensor/kitchen_pm10/config";
             Some "homeassistant/sensor/kitchen_hcho/config";
             Some "homeassistant/sensor/kitchen_tvoc/config";
             Some "homeassistant/sensor/kitchen_co2/config";
             Some "homeassistant/sensor/kitchen_temperature/config";
             Some "homeassistant/sensor/kitchen_humidity/config";
             Some "homeassistant/binary_sensor/kitchen_online/config";
             Some "homeassistant/sensor/kitchen_last_packet_s/config" ].
Proof.
  destruct (discovery_once demo_opts 100 demo_pre demo_post 103 scenario_A
              "10.0.0.5" measurement_A 116 "kitchen"
              (fst (fst (loop demo_opts demo_pre (initial demo_opts 100))))
              (snd (fst (loop demo_opts demo_pre (initial demo_opts 100)))))
    as (out_post & Hout & Hstate & Htopics & _).
  - vm_compute. reflexivity.
  - vm_compute. reflexivity.
  - repeat constructor.
  - vm_compute. reflexivity.
  - exists out_post. split; [exact Hout|]. split; [exact Hstate | exact Htopics].
Defined.

End Bridge.

(** * Further properties of the decoder *)

Section DecoderRanges.

Import Struct.

Lemma byte_of_Z_u8 b : byte_of_Z (u8 b) = b.
Proof.
  unfold byte_of_Z. rewrite Z.mod_small by apply u8_range.
  unfold u8. rewrite N2Z.id, Byte.of_to_N. reflexivity.
Qed.

Lemma unpack_from_range count : forall buf xs,
  unpack_from count buf = Returned xs ->
  Forall (fun x => 0 <= x < 65536) xs.
Proof.
  induction count as [|k IH]; intros buf xs H.
  - injection H as <-. constructor.
  - destruct buf as [|hi [|lo rest]]; try discriminate H.
    cbn [unpack_from] in H.
    destruct (unpack_from k rest) as [ys|e] eqn:E; [|discriminate H].
    injection H as <-. constructor; [|exact (IH rest ys E)].
    pose proof (u8_range hi). pose proof (u8_range lo). lia.
Qed.

(** The bytes that were read are the encoding of the words that were
    returned. *)
Lemma pack_unpack_from count : forall buf xs,
  unpack_from count buf = Returned xs ->
  take (2 * count) buf = pack xs.
Proof.
  induction count as [|k IH]; intros buf xs H.
  - injection H as <-. reflexivity.
  - destruct buf as [|hi [|lo rest]]; try discriminate H.
    cbn [unpack_from] in H.
    destruct (unpack_from k rest) as [ys|e] eqn:E; [|discriminate H].
    injection H as <-.
    replace (2 * S k)%nat with (S (S (2 * k))) by lia.
    cbn [take pack flat_map pack_H app]. fold (pack ys).
    rewrite (IH rest ys E).
    pose proof (u8_range hi) as Hhi. pose proof (u8_range lo) as Hlo.
    replace ((256 * u8 hi + u8 lo) / 256) with (u8 hi)
      by (apply Z.div_unique with (r := u8 lo); lia).
    rewrite byte_of_Z_u8.
    replace (byte_of_Z (256 * u8 hi + u8 lo)) with (byte_of_Z (u8 lo)).
    + now rewrite byte_of_Z_u8.
    + unfold byte_of_Z. f_equal. f_equal. f_equal.
      rewrite Z.add_comm, Z.mul_comm, Z.mod_add by lia. reflexivity.
Qed.

(** A measurement comes from seven words of a buffer of at least 37 bytes. *)
Lemma parse_packet_inv data m :
  parse_packet data = Returned (Some m) ->
  (37 <= length data)%nat /\
  exists x0 x1 x2 x3 x4 x5 x6,
    unpack_from 7 (drop 23 data) = Returned [x0; x1; x2; x3; x4; x5; x6]
    /\ m = {| pm25 := x0; pm10 := x1;
              hcho := Binary64.div_int x2 100; tvoc := Binary64.div_int x3 100;
              co2 := x4;
              temperature := Binary64.div_int (x5 - 3500) 100;
              humidity := Binary64.div_int x6 100 |}.
Proof.
  intros H.
  assert (Hlen : (37 <= length data)%nat).
  { unfold parse_packet in H.
    destruct (Z.ltb_spec (Z.of_nat (length data)) (23 + 14)); [discriminate H | lia]. }
  split; [exact Hlen|].
  rewrite parse_packet_long in H by exact Hlen.
  destruct (unpack_from_total 7 (drop 23 data)) as (xs & Hxs & Hl);
    [rewrite length_drop; lia|].
  do 8 (destruct xs as [|? xs]; try discriminate Hl).
  rewrite Hxs in H. cbn [bind_outcome item lookup list_lookup] in H.
  injection H as <-. do 7 eexists. split; [exact Hxs | reflexivity].
Qed.

(** The quotient by 100 is monotone in the numerator and close to the
    exact quotient. *)
Lemma div_int_100_mono (n n' : Z) :
  n <= n' -> (Binary64.div_int n 100 <= Binary64.div_int n' 100)%Q.
Proof.
  intros H. unfold Binary64.div_int. apply round_mono.
  apply Qmult_le_compat_r; [rewrite <- Zle_Qle; exact H | discriminate].
Qed.

Lemma div_int_100_near (n : Z) :
  -100000 <= n <= 100000 ->
  (inject_Z n * (1 # 100) - (1 # 400) <= Binary64.div_int n 100
   /\ Binary64.div_int n 100 <= inject_Z n * (1 # 100) + (1 # 400))%Q.
Proof.
  intros Hn. unfold Binary64.div_int.
  change (inject_Z n / inject_Z 100)%Q with (inject_Z n * (1 # 100))%Q.
  set (a := (inject_Z n * (1 # 100))%Q).
  assert (Ha : (- (1000) <= a /\ a <= 1000)%Q).
  { unfold a, Qle, Qmult, inject_Z. cbn [Qnum Qden Qopp]. lia. }
  pose proof (round_error a) as He.
  assert (Habs : (Qabs a * (1 # 2 ^ 53) <= 1 # 400)%Q).
  { apply Qle_trans with (1000 * (1 # 2 ^ 53))%Q; [|discriminate].
    apply Qmult_le_compat_r; [|discriminate].
    apply Qabs_Qle_condition. exact Ha. }
  apply (Qle_trans _ _ _ He) in Habs.
  apply Qabs_Qle_condition in Habs. destruct Habs as [H1 H2]. split; lra.
Qed.

Lemma div_int_100_inj (n n' : Z) :
  -100000 <= n <= 100000 -> -100000 <= n' <= 100000 ->
  Binary64.div_int n 100 = Binary64.div_int n' 100 -> n = n'.
Proof.
  intros Hn Hn' Heq.
  destruct (div_int_100_near n Hn) as [H1 H2].
  destruct (div_int_100_near n' Hn') as [H1' H2'].
  rewrite Heq in H1, H2.
  destruct (Z.lt_trichotomy n n') as [Hlt | [-> | Hgt]]; [exfalso | reflexivity | exfalso].
  - assert (H : (inject_Z n + 1 <= inject_Z n')%Q).
    { change 1%Q with (inject_Z 1). rewrite <- inject_Z_plus, <- Zle_Qle. lia. }
    lra.
  - assert (H : (inject_Z n' + 1 <= inject_Z n)%Q).
    { change 1%Q with (inject_Z 1). rewrite <- inject_Z_plus, <- Zle_Qle. lia. }
    lra.
Qed.

(** X1.  The fields of every decoded measurement are bounded by the wire
    format: the three counts lie in 0..65535; the three scaled
    concentrations are at least 0 and at most the binary64 quotient
    65535 / 100, which is below 655.36; the temperature is at least -35 and
    at most the binary64 quotient 62035 / 100, which is below 620.36. *)
Theorem parse_packet_ranges (data : list byte) (m : Measurement) :
  parse_packet data = Returned (Some m) ->
  0 <= pm25 m <= 65535 /\ 0 <= pm10 m <= 65535 /\ 0 <= co2 m <= 65535
  /\ (0 <= hcho m /\ hcho m <= Binary64.div_int 65535 100 /\ hcho m < 65536 # 100)%Q
  /\ (0 <= tvoc m /\ tvoc m <= Binary64.div_int 65535 100 /\ tvoc m < 65536 # 100)%Q
  /\ (0 <= humidity m /\ humidity m <= Binary64.div_int 65535 100
      /\ humidity m < 65536 # 100)%Q
  /\ (-(35) <= temperature m /\ temperature m <= Binary64.div_int 62035 100
      /\ temperature m < 62036 # 100)%Q.
Proof.
  intros H.
  apply parse_packet_inv in H
    as (_ & x0 & x1 & x2 & x3 & x4 & x5 & x6 & Hx & ->).
  apply unpack_from_range in Hx.
  repeat match goal with
         | H : Forall _ (_ :: _) |- _ => apply Forall_cons in H as [? H]
         end.
  cbn [pm25 pm10 co2 hcho tvoc humidity temperature].
  assert (Hlo : forall x, 0 <= x -> (0 <= Binary64.div_int x 100)%Q).
  { intros x Hx0. apply (Qle_trans _ (Binary64.div_int 0 100));
      [discriminate | apply div_int_100_mono, Hx0]. }
  assert (Hhi : forall x, x <= 65535 ->
                  (Binary64.div_int x 100 <= Binary64.div_int 65535 100
                   /\ Binary64.div_int x 100 < 65536 # 100)%Q).
  { intros x Hx1. pose proof (div_int_100_mono x 65535 Hx1) as Hm.
    split; [exact Hm|]. eapply Qle_lt_trans; [exact Hm|].
    apply Qlt_alt. vm_compute. reflexivity. }
  split; [lia|]. split; [lia|]. split; [lia|].
  split; [split; [apply Hlo | apply Hhi]; lia|].
  split; [split; [apply Hlo | apply Hhi]; lia|].
  split; [split; [apply Hlo | apply Hhi]; lia|].
  pose proof (div_int_100_mono (x5 - 3500) 62035 ltac:(lia)) as Hm.
  split; [|split; [exact Hm|]].
  - apply (Qle_trans _ (Binary64.div_int (-3500) 100));
      [apply Qle_bool_iff; vm_compute; reflexivity | apply div_int_100_mono; lia].
  - eapply Qle_lt_trans; [exact Hm|]. apply Qlt_alt. vm_compute. reflexivity.
Qed.

Lemma parse_packet_ranges_scenario_A :
  0 <= pm25 measurement_A <= 65535 /\ 0 <= pm10 measurement_A <= 65535
  /\ 0 <= co2 measurement_A <= 65535
  /\ (0 <= hcho measurement_A /\ hcho measurement_A <= Binary64.div_int 65535 100
      /\ hcho measurement_A < 65536 # 100)%Q
  /\ (0 <= tvoc measurement_A /\ tvoc measurement_A <= Binary64.div_int 65535 100
      /\ tvoc measurement_A < 65536 # 100)%Q
  /\ (0 <= humidity measurement_A /\ humidity measurement_A <= Binary64.div_int 65535 100
      /\ humidity measurement_A < 65536 # 100)%Q
  /\ (-(35) <= temperature measurement_A
      /\ temperature measurement_A <= Binary64.div_int 62035 100
      /\ temperature measurement_A < 62036 # 100)%Q.
Proof.
  apply (parse_packet_ranges scenario_A measurement_A).
  vm_compute. reflexivity.
Defined.

(** X2.  Decoding loses nothing of the payload: two buffers that decode to
    the same measurement carry the same 14 bytes at offsets 23..36. *)
Theorem parse_packet_payload_inj (data data' : list byte) (m : Measurement) :
  parse_packet data = Returned (Some m) ->
  parse_packet data' = Returned (Some m) ->
  take 14 (drop 23 data) = take 14 (drop 23 data').
Proof.
  intros H H'.
  apply parse_packet_inv in H
    as (_ & x0 & x1 & x2 & x3 & x4 & x5 & x6 & Hx & Hm).
  apply parse_packet_inv in H'
    as (_ & y0 & y1 & y2 & y3 & y4 & y5 & y6 & Hy & Hm').
  rewrite Hm in Hm'. injection Hm' as E0 E1 E2 E3 E4 E5 E6.
  pose proof (unpack_from_range _ _ _ Hx) as Rx.
  pose proof (unpack_from_range _ _ _ Hy) as Ry.
  repeat match goal with
         | H : Forall _ (_ :: _) |- _ => apply Forall_cons in H as [? H]
         end.
  apply div_int_100_inj in E2, E3, E5, E6; try lia.
  apply (pack_unpack_from 7) in Hx, Hy.
  change (2 * 7)%nat with 14%nat in Hx, Hy. rewrite Hx, Hy.
  repeat f_equal; lia.
Qed.

Lemma parse_packet_payload_inj_scenario_A :
  take 14 (drop 23 scenario_A) = take 14 (drop 23 (scenario_A ++ [x01; x02])).
Proof.
  apply (parse_packet_payload_inj scenario_A (scenario_A ++ [x01; x02]) measurement_A).
  - vm_compute. reflexivity.
  - vm_compute. reflexivity.
Defined.

End DecoderRanges.

(** * Further properties of the liveness evaluation *)

Section OnlineWindow.

Local Open Scope Q_scope.

(** X3.  With a recorded, non-zero time stamp that is not in the future, a
    device is online exactly while the float difference [now - ts] is below
    [timeout + 1]: the truncation of the age keeps it online after the
    timeout.  In terms of the exact difference, and for a timeout below 2^53
    in magnitude: it is online whenever [now - ts <= timeout] and offline
    whenever [now - ts >= timeout + 1]; in between, the rounding of the
    subtraction decides. *)
Theorem evaluate_online_window (ts now : Q) (timeout : Z) :
  ~ ts == 0 ->
  ts <= now ->
  (snd (evaluate (Some ts) now timeout) = true
     <-> Binary64.sub now ts < inject_Z timeout + 1)
  /\ ((- 2 ^ 53 < timeout < 2 ^ 53 - 1)%Z ->
      (now - ts <= inject_Z timeout -> snd (evaluate (Some ts) now timeout) = true)
      /\ (inject_Z timeout + 1 <= now - ts ->
            snd (evaluate (Some ts) now timeout) = false)).
Proof.
  intros Hnz Hle. split; [|intros Ht; apply evaluate_online_regions; assumption].
  rewrite evaluate_seen by exact Hnz. cbn [snd].
  assert (Hd : 0 <= Binary64.sub now ts) by (apply round_nonneg; lra).
  rewrite int_of_float_nonneg by exact Hd.
  rewrite Z.leb_le. split.
  - intros Hf. eapply Qlt_le_trans; [apply Qlt_floor|].
    rewrite inject_Z_plus. apply Qplus_le_l. rewrite <- Zle_Qle. exact Hf.
  - intros Hlt.
    assert (H : inject_Z (Qfloor (Binary64.sub now ts)) < inject_Z (timeout + 1)).
    { eapply Qle_lt_trans; [apply Qfloor_le|]. rewrite inject_Z_plus. exact Hlt. }
    rewrite <- Zlt_Qlt in H. lia.
Qed.

Lemma evaluate_online_window_example :
  (snd (evaluate (Some double_0_3) double_3_3 2) = true
     <-> Binary64.sub double_3_3 double_0_3 < inject_Z 2 + 1)
  /\ ((- 2 ^ 53 < 2 < 2 ^ 53 - 1)%Z ->
      (double_3_3 - double_0_3 <= inject_Z 2 ->
         snd (evaluate (Some double_0_3) double_3_3 2) = true)
      /\ (inject_Z 2 + 1 <= double_3_3 - double_0_3 ->
            snd (evaluate (Some double_0_3) double_3_3 2) = false)).
Proof.
  apply (evaluate_online_window double_0_3 double_3_3 2); discriminate.
Defined.

End OnlineWindow.

(** * Further properties of the discovery messages *)

Section Discovery.

Lemma CONFIG_TOPIC_SENSOR_inj u u' :
  CONFIG_TOPIC_SENSOR u = CONFIG_TOPIC_SENSOR u' -> u = u'.
Proof.
  unfold CONFIG_TOPIC_SENSOR. intros H.
  apply (inj (String.append _)) in H. exact (string_app_inv_tail _ _ _ H).
Qed.

Lemma CONFIG_TOPIC_BIN_ne_SENSOR u u' : CONFIG_TOPIC_BIN u <> CONFIG_TOPIC_SENSOR u'.
Proof. unfold CONFIG_TOPIC_BIN, CONFIG_TOPIC_SENSOR. rewrite !append_cons. discriminate. Qed.

Lemma publish_discovery_topics name :
  topic_of <$> publish_discovery name =
    [ Some (CONFIG_TOPIC_SENSOR (name ++ "_" ++ "pm25"));
      Some (CONFIG_TOPIC_SENSOR (name ++ "_" ++ "pm10"));
      Some (CONFIG_TOPIC_SENSOR (name ++ "_" ++ "hcho"));
      Some (CONFIG_TOPIC_SENSOR (name ++ "_" ++ "tvoc"));
      Some (CONFIG_TOPIC_SENSOR (name ++ "_" ++ "co2"));
      Some (CONFIG_TOPIC_SENSOR (name ++ "_" ++ "temperature"));
      Some (CONFIG_TOPIC_SENSOR (name ++ "_" ++ "humidity"));
      Some (CONFIG_TOPIC_BIN (name ++ "_online"));
      Some (CONFIG_TOPIC_SENSOR (name ++ "_last_packet_s")) ].
Proof. reflexivity. Qed.

(** X4.  The nine discovery messages of a device go to nine different
    topics, so no retained configuration replaces another one. *)
Theorem publish_discovery_topics_distinct (name : string) :
  length (publish_discovery name) = 9%nat /\
  NoDup (topic_of <$> publish_discovery name).
Proof.
  split; [reflexivity|].
  rewrite publish_discovery_topics.
  repeat (apply NoDup_cons; split;
          [rewrite ?elem_of_cons, elem_of_nil;
           intros H; repeat destruct H as [H|H]; try contradiction;
           apply (inj Some) in H;
           first [ exact (CONFIG_TOPIC_BIN_ne_SENSOR _ _ H)
                 | symmetry in H; exact (CONFIG_TOPIC_BIN_ne_SENSOR _ _ H)
                 | apply CONFIG_TOPIC_SENSOR_inj, (inj (String.append name)) in H;
                   vm_compute in H; discriminate H ]|]).
  constructor.
Qed.

(** X5.  Every discovery message is retained and describes the device
    [name] under the identifier "airmaster_<name>"; it is published on the
    configuration topic of its own "unique_id"; and its "state_topic" is one
    of the three topics on which the bridge publishes for that name. *)
Theorem publish_discovery_configs (name : string) (e : effect) :
  e ∈ publish_discovery name ->
  retained e = true
  /\ dict_get "device" (config_of e)
       = Some (JDict [ ("identifiers", JList [JStr ("airmaster_" ++ name)%string]);
                       ("name", JStr name) ])
  /\ (exists uid,
        dict_get "unique_id" (config_of e) = Some (JStr uid)
        /\ (topic_of e = Some (CONFIG_TOPIC_SENSOR uid)
            \/ topic_of e = Some (CONFIG_TOPIC_BIN uid)))
  /\ (dict_get "state_topic" (config_of e) = Some (JStr (STATE_TOPIC_FORMAT name))
      \/ dict_get "state_topic" (config_of e) = Some (JStr (META_TOPIC_FORMAT name))
      \/ dict_get "state_topic" (config_of e) = Some (JStr (ONLINE_TOPIC_FORMAT name))).
Proof.
  revert e. apply Forall_forall.
  unfold publish_discovery. cbn [map SENSORS app].
  repeat (apply List.Forall_cons;
          [split; [reflexivity|]; split; [reflexivity|]; split;
           [eexists; split; [reflexivity|]; first [left; reflexivity | right; reflexivity]
           |first [left; reflexivity | right; left; reflexivity | right; right; reflexivity]]
          |]).
  apply List.Forall_nil.
Qed.

Lemma publish_discovery_configs_example :
  retained (Publish (CONFIG_TOPIC_BIN "kitchen_online")
              (Dumps (JDict [ ("name", JStr "Online");
                              ("unique_id", JStr "kitchen_online");
                              ("device_class", JStr "connectivity");
                              ("state_topic", JStr (ONLINE_TOPIC_FORMAT "kitchen"));
                              ("payload_on", JStr "ON");
                              ("payload_off", JStr "OFF");
                              ("device", device_block "kitchen") ])) true) = true.
Proof.
  refine (proj1 (publish_discovery_configs "kitchen" _ _)).
  apply list_elem_of_In. vm_compute. do 7 right. left. reflexivity.
Defined.

(** X6.  The value templates of the seven sensor configurations read, in
    order, exactly the seven keys of the measurement that is published on the
    state topic. *)
Theorem sensor_templates_match_measurement (m : Measurement) :
  map (fun sensor => str_of (dict_get "value_template" sensor)) SENSORS
    = map (fun key => ("{{ value_json." ++ key ++ " }}")%string)
          (keys_of (json_of_measurement m)).
Proof. reflexivity. Qed.

End Discovery.

(** * Further properties of runs *)

Section Runs.

Variable opts : Options.

Lemma last_char_ONLINE n : last_char (ONLINE_TOPIC_FORMAT n) = Some "e"%char.
Proof. unfold ONLINE_TOPIC_FORMAT. now rewrite !last_char_app. Qed.

(** Neither a discovery message nor a measurement is on a liveness topic. *)
Lemma discovery_not_liveness name name' e :
  e ∈ publish_discovery name' ->
  topic_of e <> Some (META_TOPIC_FORMAT name)
  /\ topic_of e <> Some (ONLINE_TOPIC_FORMAT name).
Proof.
  intros He. apply publish_discovery_spec in He as [_ Hend].
  unfold topic_end in Hend.
  split; intros Ht; rewrite Ht in Hend;
    [rewrite last_char_META in Hend | rewrite last_char_ONLINE in Hend];
    discriminate Hend.
Qed.

Lemma state_not_liveness name name' m e :
  e ∈ publish_state name' m ->
  topic_of e <> Some (META_TOPIC_FORMAT name)
  /\ topic_of e <> Some (ONLINE_TOPIC_FORMAT name).
Proof.
  intros He. apply publish_state_spec in He as [_ Ht]. rewrite Ht.
  split; intros H; apply (inj Some) in H.
  - apply (f_equal last_char) in H.
    rewrite last_char_STATE, last_char_META in H. discriminate H.
  - symmetry in H. exact (ONLINE_ne_sensor _ _ H).
Qed.

Lemma on_topic_app topic (out1 out2 : list effect) :
  on_topic topic (out1 ++ out2) = on_topic topic out1 ++ on_topic topic out2.
Proof. apply filter_app. Qed.

(** A socket result that is no valid packet is a valid packet for no name. *)
Lemma ingest_idle now r st :
  (exists s, ingest opts now r st = (st, [], s)
             /\ forall name, decodes_for opts name r = false
                             /\ measurements_for opts name [(now, r)] = []) \/
  (exists data ip m, r = Datagram data ip /\ parse_packet data = Returned (Some m)).
Proof.
  destruct r as [data ip| | |];
    try (left; eexists; split; [reflexivity | intros; split; reflexivity]).
  destruct (parse_packet data) as [[m|]|e] eqn:E.
  - right. eauto.
  - left. exists None. unfold ingest, decodes_for, measurements_for.
    cbn [flat_map snd]. rewrite E. split; [reflexivity|].
    intros name. split; [apply andb_false_r | now destruct (bool_decide _)].
  - left. exists (Some Fatal). unfold ingest, decodes_for, measurements_for.
    cbn [flat_map snd]. rewrite E. split; [reflexivity|].
    intros name. split; [apply andb_false_r | now destruct (bool_decide _)].
Qed.

(** The time stamp of [name] after an iteration. *)
Lemma iteration_last_packet_ts now r st name :
  last_packet_ts (fst (fst (iteration opts now r st))) !! name
    = if decodes_for opts name r then Some now else last_packet_ts st !! name.
Proof.
  rewrite iteration_eq.
  destruct (ingest_idle now r st) as [(s & Hs & Hd) | (data & ip & m & -> & Hm)].
  - rewrite Hs, (proj1 (Hd name)).
    destruct s; cbn [fst]; rewrite ?sweep_last_packet_ts; reflexivity.
  - rewrite (ingest_decoded opts now data ip m st Hm). cbn [fst].
    rewrite sweep_last_packet_ts. cbn [last_packet_ts].
    unfold decodes_for. rewrite Hm, andb_true_r.
    destruct (bool_decide_reflect (get_name_by_ip ip (addr_to_name opts) = name)) as [->|Hne].
    + apply lookup_insert_eq.
    + now apply lookup_insert_ne.
Qed.


(** A run that is not stopped is an iteration followed by a run. *)
Lemma loop_cons_running now r rest st st' out :
  loop opts ((now, r) :: rest) st = (st', out, None) ->
  exists st1 out1 out2,
    iteration opts now r st = (st1, out1, None)
    /\ loop opts rest st1 = (st', out2, None)
    /\ out = out1 ++ out2.
Proof.
  rewrite loop_cons.
  destruct (iteration opts now r st) as [[st1 out1] [s|]]; [discriminate|].
  destruct (loop opts rest st1) as [[st2 out2] s2] eqn:E. cbn [fst snd].
  intros H. injection H as H1 H2 H3. subst st' out s2.
  exists st1, out1, out2. split; [reflexivity|]. split; [exact E | reflexivity].
Qed.

(** A property of the variables that every iteration keeps holds after
    every run. *)
Lemma loop_preserves (P : Bridge -> Prop) (ok : Q * recv -> Prop) :
  (forall now r st, ok (now, r) -> P st -> P (fst (fst (iteration opts now r st)))) ->
  forall inputs st, Forall ok inputs -> P st -> P (fst (fst (loop opts inputs st))).
Proof.
  intros Hstep. induction inputs as [|[now r] rest IH]; intros st Hall HP; [exact HP|].
  apply Forall_cons in Hall as [Hok Hall].
  rewrite loop_cons. pose proof (Hstep now r st Hok HP) as H1.
  destruct (iteration opts now r st) as [[st1 out1] [s|]]; cbn [fst] in *;
    [exact H1 | apply IH; assumption].
Qed.

(** Where the messages of a run come from. *)
Lemma loop_out_origin inputs e : forall st,
  e ∈ snd (fst (loop opts inputs st)) ->
  (exists name age online, e ∈ publish_meta name age online)
  \/ (exists name m, e ∈ publish_state name m)
  \/ (exists name, e ∈ publish_discovery name).
Proof.
  induction inputs as [|[now r] rest IH]; intros st He;
    [now apply elem_of_nil in He|].
  rewrite loop_cons in He.
  pose proof (iteration_out opts now r st e) as H1.
  assert (H2 : e ∈ snd (fst (iteration opts now r st)) ->
               (exists name age online, e ∈ publish_meta name age online)
               \/ (exists name m, e ∈ publish_state name m)
               \/ (exists name, e ∈ publish_discovery name)).
  { intros Hin. destruct (H1 Hin) as [Hm | (data & ip & m & _ & _ & [Hs | [_ Hd]])];
      eauto. }
  destruct (iteration opts now r st) as [[st1 out1] [s|]]; cbn [fst snd] in *;
    [exact (H2 He)|].
  apply elem_of_app in He as [He|He]; [exact (H2 He) | exact (IH st1 He)].
Qed.

End Runs.

Section RunProperties.

(** X7.  In every state that a run reaches from the start of [main], the
    known names are exactly the names with a recorded time stamp: a sweep
    never meets a known device without one. *)
Theorem known_names_have_time_stamp (opts : Options) (start : Q)
    (inputs : list (Q * recv)) (name : string) :
  let st := fst (fst (loop opts inputs (initial opts start))) in
  name ∈ known_names st <-> is_Some (last_packet_ts st !! name).
Proof.
  cbv zeta. revert name.
  apply (loop_preserves opts
           (fun st => forall name,
                name ∈ known_names st <-> is_Some (last_packet_ts st !! name))
           (fun _ => True)).
  - intros now r st _ IH name.
    rewrite iteration_known_names, iteration_last_packet_ts, IH.
    destruct (decodes_for opts name r); split.
    + intros _. eexists. reflexivity.
    + intros _. right. reflexivity.
    + intros [H|H]; [exact H | discriminate H].
    + intros H. left. exact H.
  - apply Forall_forall. intros ? _. exact I.
  - intros name. cbn [initial known_names last_packet_ts].
    rewrite lookup_empty. split.
    + intros H. now apply not_elem_of_empty in H.
    + intros [? H]. discriminate H.
Qed.

(** X8.  After a run that was not stopped, the time stamp of a name is the
    clock reading of its last valid packet in the run; a name without a
    valid packet keeps the time stamp it had. *)
Theorem last_seen_is_last_valid (opts : Options) (inputs : list (Q * recv))
    (st st' : Bridge) (out : list effect) (name : string) :
  loop opts inputs st = (st', out, None) ->
  last_packet_ts st' !! name
    = match last_valid opts name inputs with
      | Some t => Some t
      | None => last_packet_ts st !! name
      end.
Proof.
  revert st out. induction inputs as [|[now r] rest IH]; intros st out Hloop.
  - cbn [loop] in Hloop. injection Hloop as -> _. reflexivity.
  - apply loop_cons_running in Hloop as (st1 & out1 & out2 & Hit & Hrest & _).
    rewrite (IH st1 out2 Hrest). cbn [last_valid].
    destruct (last_valid opts name rest); [reflexivity|].
    replace st1 with (fst (fst (iteration opts now r st))) by now rewrite Hit.
    rewrite iteration_last_packet_ts.
    destruct (decodes_for opts name r); reflexivity.
Qed.

Lemma last_seen_is_last_valid_example :
  last_packet_ts (fst (fst (loop demo_opts (removelast demo_run) (initial demo_opts 100))))
    !! "kitchen"
    = match last_valid demo_opts "kitchen" (removelast demo_run) with
      | Some t => Some t
      | None => last_packet_ts (initial demo_opts 100) !! "kitchen"
      end.
Proof.
  apply (last_seen_is_last_valid demo_opts (removelast demo_run) (initial demo_opts 100)
           _ (snd (fst (loop demo_opts (removelast demo_run) (initial demo_opts 100))))).
  vm_compute. reflexivity.
Defined.



(** X10.  Among all the messages that [main] publishes, the measurements on
    the state topics are the only ones that are not retained. *)
Theorem retained_except_state (opts : Options) (start : Q) (inputs : list (Q * recv))
    (exit_time : Q) (topic : string) (body : payload) (retain : bool) :
  Publish topic body retain ∈ fst (main opts start inputs exit_time) ->
  retain = false <-> exists name, topic = STATE_TOPIC_FORMAT name.
Proof.
  intros Hin.
  set (origin :=
         (exists name age online, Publish topic body retain ∈ publish_meta name age online)
         \/ (exists name m, Publish topic body retain ∈ publish_state name m)
         \/ (exists name, Publish topic body retain ∈ publish_discovery name)).
  assert (Horigin : origin).
  { unfold main in Hin.
    destruct (loop opts inputs (initial opts start)) as [[st out] s] eqn:Hloop.
    assert (Hout : Publish topic body retain ∈ out -> origin)
      by (intros H; apply (loop_out_origin opts inputs _ (initial opts start));
          rewrite Hloop; exact H).
    destruct s as [s|]; cbn [fst] in Hin; [|exact (Hout Hin)].
    apply elem_of_app in Hin as [Hin | Hin]; [exact (Hout Hin)|].
    apply finally_out in Hin as [(name & age & Hin) | [H | H]];
      [left; eauto | discriminate H | discriminate H]. }
  destruct Horigin as [(name & age & online & He) | [(name & m & He) | (name & He)]].
  - assert (Hr : retain = true).
    { unfold publish_meta in He. rewrite !elem_of_cons, elem_of_nil in He.
      destruct He as [[= _ _ ->] | [[= _ _ ->] | []]]; reflexivity. }
    split; [rewrite Hr; discriminate|].
    intros [n ->]. exfalso.
    exact (meta_not_state n name age online _ He eq_refl).
  - unfold publish_state in He. apply list_elem_of_singleton in He.
    injection He as -> _ ->. split; eauto.
  - pose proof (publish_discovery_retained name _ He) as Hr. cbn [retained] in Hr.
    split; [rewrite Hr; discriminate|].
    intros [n ->]. exfalso.
    exact (discovery_not_state n name _ He eq_refl).
Qed.

Lemma retained_except_state_example :
  false = false <-> exists name, STATE_TOPIC_FORMAT "kitchen" = STATE_TOPIC_FORMAT name.
Proof.
  apply (retained_except_state demo_opts 100 demo_run 116
           (STATE_TOPIC_FORMAT "kitchen") (Dumps (json_of_measurement measurement_A))).
  apply list_elem_of_In. vm_compute. do 21 right. left. reflexivity.
Defined.

End RunProperties.

(** * Further properties of the liveness reports *)

Section Cadence.

Lemma iteration_not_due (opts : Options) now r st :
  Qle_bool (next_meta_ts st) now = false ->
  next_meta_ts (fst (fst (iteration opts now r st))) = next_meta_ts st
  /\ forall e, e ∈ snd (fst (iteration opts now r st)) ->
       (exists name m, e ∈ publish_state name m)
       \/ (exists name, e ∈ publish_discovery name).
Proof.
  intros Hdue. rewrite iteration_eq.
  destruct (ingest_cases opts now r st) as [[s Hs] | (data & ip & m & -> & Hm)].
  - rewrite Hs. unfold sweep. rewrite Hdue.
    destruct s; cbn [fst snd app]; split; try reflexivity;
      intros e He; now apply elem_of_nil in He.
  - rewrite (ingest_decoded opts now data ip m st Hm). cbn [fst snd].
    unfold sweep. cbn [next_meta_ts]. rewrite Hdue. cbn [fst snd next_meta_ts].
    split; [reflexivity|]. intros e. rewrite app_nil_r, elem_of_app.
    intros [He | He]; [right | left; eauto].
    destruct (not_known _ st); [eauto | now apply elem_of_nil in He].
Qed.

(** X11.  A sweep that is due reports every known name exactly once, with
    the age and the online flag of [evaluate] on its age topic and on its
    online topic, and reports nothing for a name that is not known. *)
Theorem sweep_reports (opts : Options) (now : Q) (st : Bridge) (name : string) :
  Qle_bool (next_meta_ts st) now = true ->
  (name ∈ known_names st ->
     on_topic (META_TOPIC_FORMAT name) (snd (sweep opts now st))
       = [Publish (META_TOPIC_FORMAT name)
            (Text (str_int (fst (evaluate (last_packet_ts st !! name) now
                                   (online_timeout_s opts))))) true]
     /\ on_topic (ONLINE_TOPIC_FORMAT name) (snd (sweep opts now st))
          = [Publish (ONLINE_TOPIC_FORMAT name)
               (Text (if snd (evaluate (last_packet_ts st !! name) now
                                (online_timeout_s opts))
                      then "ON" else "OFF")) true])
  /\ (name ∉ known_names st ->
        on_topic (META_TOPIC_FORMAT name) (snd (sweep opts now st)) = []
        /\ on_topic (ONLINE_TOPIC_FORMAT name) (snd (sweep opts now st)) = []).
Proof.
  intros Hdue. unfold sweep. rewrite Hdue. cbn [snd]. split.
  - intros Hk. split.
    + rewrite (on_topic_flat_map _ _ name).
      * destruct (evaluate _ _ _) as [age online]. apply on_topic_META_publish_meta.
      * apply NoDup_elements.
      * apply elem_of_elements, Hk.
      * intros n e. destruct (evaluate _ _ _). apply on_topic_META_report.
    + rewrite (on_topic_flat_map _ _ name).
      * destruct (evaluate _ _ _) as [age online]. apply on_topic_ONLINE_publish_meta.
      * apply NoDup_elements.
      * apply elem_of_elements, Hk.
      * intros n e. destruct (evaluate _ _ _). apply on_topic_ONLINE_report.
  - intros Hk. split; apply on_topic_none; intros e He Ht;
      apply list_elem_of_In, in_flat_map in He as (n & Hn & He);
      apply list_elem_of_In in Hn, He; apply elem_of_elements in Hn;
      destruct (evaluate _ _ _) as [age online];
      [apply (on_topic_META_report name) in He | apply (on_topic_ONLINE_report name) in He];
      try exact Ht; subst n; contradiction.
Qed.

Lemma sweep_reports_example :
  ("kitchen" ∈ known_names epoch_state ->
     on_topic (META_TOPIC_FORMAT "kitchen") (snd (sweep demo_opts 5 epoch_state))
       = [Publish (META_TOPIC_FORMAT "kitchen")
            (Text (str_int (fst (evaluate (last_packet_ts epoch_state !! "kitchen") 5
                                   (online_timeout_s demo_opts))))) true]
     /\ on_topic (ONLINE_TOPIC_FORMAT "kitchen") (snd (sweep demo_opts 5 epoch_state))
          = [Publish (ONLINE_TOPIC_FORMAT "kitchen")
               (Text (if snd (evaluate (last_packet_ts epoch_state !! "kitchen") 5
                                (online_timeout_s demo_opts))
                      then "ON" else "OFF")) true])
  /\ ("kitchen" ∉ known_names epoch_state ->
        on_topic (META_TOPIC_FORMAT "kitchen") (snd (sweep demo_opts 5 epoch_state)) = []
        /\ on_topic (ONLINE_TOPIC_FORMAT "kitchen") (snd (sweep demo_opts 5 epoch_state)) = []).
Proof.
  apply (sweep_reports demo_opts 5 epoch_state "kitchen").
  vm_compute. reflexivity.
Defined.

Lemma no_liveness_before_due_aux (opts : Options) (inputs : list (Q * recv))
    (st : Bridge) (name : string) (e : effect) :
  Forall (fun i => (fst i < next_meta_ts st)%Q) inputs ->
  next_meta_ts (fst (fst (loop opts inputs st))) = next_meta_ts st
  /\ (e ∈ snd (fst (loop opts inputs st)) ->
      topic_of e <> Some (META_TOPIC_FORMAT name)
      /\ topic_of e <> Some (ONLINE_TOPIC_FORMAT name)).
Proof.
  revert st. induction inputs as [|[now r] rest IH]; intros st Hall.
  - split; [reflexivity|]. intros He. now apply elem_of_nil in He.
  - apply Forall_cons in Hall as [Hnow Hall]. cbn [fst] in Hnow.
    assert (Hdue : Qle_bool (next_meta_ts st) now = false).
    { destruct (Qle_bool (next_meta_ts st) now) eqn:E; [|reflexivity].
      apply Qle_bool_iff in E. exfalso. exact (Qlt_not_le _ _ Hnow E). }
    destruct (iteration_not_due opts now r st Hdue) as [Hnext Hout].
    assert (Hquiet : e ∈ snd (fst (iteration opts now r st)) ->
                     topic_of e <> Some (META_TOPIC_FORMAT name)
                     /\ topic_of e <> Some (ONLINE_TOPIC_FORMAT name)).
    { intros He. destruct (Hout e He) as [(n & m & H) | (n & H)].
      - eapply state_not_liveness, H.
      - eapply discovery_not_liveness, H. }
    rewrite loop_cons.
    destruct (iteration opts now r st) as [[st1 out1] [s|]]; cbn [fst snd] in *;
      [split; assumption|].
    rewrite <- Hnext in Hall. destruct (IH st1 Hall) as [IH1 IH2].
    split; [congruence|].
    intros He. apply elem_of_app in He as [He | He]; auto.
Qed.

(** X12.  As long as the clock reads less than [next_meta_ts], a run
    publishes nothing on any age or online topic and leaves [next_meta_ts]
    as it is: packets do not trigger liveness reports. *)
Theorem no_liveness_before_due (opts : Options) (inputs : list (Q * recv))
    (st : Bridge) (name : string) (e : effect) :
  Forall (fun i => (fst i < next_meta_ts st)%Q) inputs ->
  next_meta_ts (fst (fst (loop opts inputs st))) = next_meta_ts st
  /\ (e ∈ snd (fst (loop opts inputs st)) ->
      topic_of e <> Some (META_TOPIC_FORMAT name)
      /\ topic_of e <> Some (ONLINE_TOPIC_FORMAT name)).
Proof. apply no_liveness_before_due_aux. Qed.

Lemma no_liveness_before_due_example :
  next_meta_ts (fst (fst (loop demo_opts [(101%Q, Datagram scenario_A "10.0.0.5")]
                            (initial demo_opts 100))))
    = next_meta_ts (initial demo_opts 100)
  /\ (Publish (STATE_TOPIC_FORMAT "kitchen") (Dumps (json_of_measurement measurement_A)) false
        ∈ snd (fst (loop demo_opts [(101%Q, Datagram scenario_A "10.0.0.5")]
                      (initial demo_opts 100))) ->
      topic_of (Publish (STATE_TOPIC_FORMAT "kitchen")
                  (Dumps (json_of_measurement measurement_A)) false)
        <> Some (META_TOPIC_FORMAT "kitchen")
      /\ topic_of (Publish (STATE_TOPIC_FORMAT "kitchen")
                     (Dumps (json_of_measurement measurement_A)) false)
           <> Some (ONLINE_TOPIC_FORMAT "kitchen")).
Proof.
  apply (no_liveness_before_due demo_opts [(101%Q, Datagram scenario_A "10.0.0.5")]
           (initial demo_opts 100) "kitchen").
  repeat constructor.
Defined.

(** X13.  If no clock reading of a run from the start of [main] exceeds
    [now], the age that [evaluate] computes at [now] is not negative for
    any name: negative ages need a clock that went backwards. *)
Theorem forward_clock_nonnegative_age (opts : Options) (start : Q)
    (inputs : list (Q * recv)) (now : Q) (name : string) :
  Forall (fun i => (fst i <= now)%Q) inputs ->
  0 <= fst (evaluate
              (last_packet_ts (fst (fst (loop opts inputs (initial opts start)))) !! name)
              now (online_timeout_s opts)).
Proof.
  intros Hall.
  assert (Hinv : forall n ts,
             last_packet_ts (fst (fst (loop opts inputs (initial opts start)))) !! n
               = Some ts -> (ts <= now)%Q).
  { apply (loop_preserves opts
             (fun st => forall n ts, last_packet_ts st !! n = Some ts -> (ts <= now)%Q)
             (fun i => (fst i <= now)%Q)).
    - intros now' r st Hok IH n ts. rewrite iteration_last_packet_ts.
      destruct (decodes_for opts n r); [|apply IH].
      intros [= <-]. exact Hok.
    - exact Hall.
    - intros n ts. cbn [initial last_packet_ts]. rewrite lookup_empty. discriminate. }
  unfold evaluate. cbn [fst].
  destruct (last_packet_ts _ !! name) as [ts|] eqn:E; cbn [default from_option id];
    [|cbn; lia].
  destruct (float_truthy ts); [|lia].
  pose proof (Hinv name ts E) as Hts.
  apply (sub_ge now ts 0); [lia|]. change (inject_Z 0) with 0%Q. lra.
Qed.

Lemma forward_clock_nonnegative_age_example :
  0 <= fst (evaluate
              (last_packet_ts (fst (fst (loop demo_opts demo_run (initial demo_opts 100))))
                 !! "kitchen")
              116 (online_timeout_s demo_opts)).
Proof.
  apply (forward_clock_nonnegative_age demo_opts 100 demo_run 116 "kitchen").
  repeat constructor; discriminate.
Defined.

End Cadence.

(** * Further properties of the bridge *)

Section Sessions.

(** The sum that the sweep stores rounds: a sweep at the binary64 number
    nearest to 0.3 with a period of 3 stores the one nearest to 3.3, which
    is below the exact sum, so the next sweep is due when the clock reads
    it.  The primitive binary64 addition gives the same sum. *)
Lemma sweep_rounds (st : Bridge) :
  Qle_bool (next_meta_ts st) double_0_3 = true ->
  let opts := {| online_timeout_s := 10; meta_publish_every_s := 3;
                 addr_to_name := ∅ |} in
  (next_meta_ts (fst (sweep opts double_0_3 st)) == double_3_3)%Q
  /\ (double_3_3 < double_0_3 + 3)%Q
  /\ Qle_bool (next_meta_ts (fst (sweep opts double_0_3 st))) double_3_3 = true
  /\ option_map Qred
       (Binary64.Q_of_float
          (PrimFloat.add (PrimFloat.div (Binary64.float_of_Z 3) (Binary64.float_of_Z 10))
             (Binary64.float_of_Z 3)))
     = Some (Qred (next_meta_ts (fst (sweep opts double_0_3 st)))).
Proof.
  intros Hdue opts. unfold sweep. rewrite Hdue. cbn [fst next_meta_ts].
  split; [apply Qeq_bool_iff; vm_compute; reflexivity|].
  split; [reflexivity|]. split; vm_compute; reflexivity.
Qed.

(** X14.  After an iteration whose sweep was due at [now], no age or online
    message is published while the clock reads less than the float sum
    [now + meta_publish_every_s] that the sweep stored in [next_meta_ts]. *)
Theorem liveness_spacing (opts : Options) (now : Q) (r : recv) (st st1 : Bridge)
    (out1 : list effect) (rest : list (Q * recv)) (name : string) (e : effect) :
  Qle_bool (next_meta_ts st) now = true ->
  iteration opts now r st = (st1, out1, None) ->
  Forall (fun i => (fst i < Binary64.add_int now (meta_publish_every_s opts))%Q) rest ->
  e ∈ snd (fst (loop opts rest st1)) ->
  topic_of e <> Some (META_TOPIC_FORMAT name)
  /\ topic_of e <> Some (ONLINE_TOPIC_FORMAT name).
Proof.
  intros Hdue Hit Hrest He.
  assert (Hnext : next_meta_ts st1 = Binary64.add_int now (meta_publish_every_s opts)).
  { replace st1 with (fst (fst (iteration opts now r st))) by now rewrite Hit.
    rewrite iteration_eq.
    destruct (ingest_cases opts now r st) as [[s Hs] | (data & ip & m & -> & Hm)].
    - rewrite Hs in *. rewrite iteration_eq, Hs in Hit.
      destruct s; [discriminate Hit|]. cbn [fst]. unfold sweep. now rewrite Hdue.
    - rewrite (ingest_decoded opts now data ip m st Hm). cbn [fst].
      unfold sweep. cbn [next_meta_ts]. now rewrite Hdue. }
  rewrite <- Hnext in Hrest.
  destruct (no_liveness_before_due_aux opts rest st1 name e Hrest) as [_ H].
  exact (H He).
Qed.

Lemma liveness_spacing_example :
  topic_of (Publish (STATE_TOPIC_FORMAT "kitchen")
              (Dumps (json_of_measurement measurement_A)) false)
    <> Some (META_TOPIC_FORMAT "kitchen")
  /\ topic_of (Publish (STATE_TOPIC_FORMAT "kitchen")
                 (Dumps (json_of_measurement measurement_A)) false)
       <> Some (ONLINE_TOPIC_FORMAT "kitchen").
Proof.
  apply (liveness_spacing demo_opts 102 Timeout (initial demo_opts 100)
           (fst (fst (iteration demo_opts 102 Timeout (initial demo_opts 100)))) []
           [(103%Q, Datagram scenario_A "10.0.0.5")] "kitchen").
  - vm_compute. reflexivity.
  - vm_compute. reflexivity.
  - repeat constructor.
  - apply list_elem_of_In. vm_compute. do 9 right. left. reflexivity.
Defined.

(** X15.  While the loop runs it only publishes: closing the socket and
    stopping the client are left to the [finally] block. *)
Theorem loop_only_publishes (opts : Options) (inputs : list (Q * recv)) (st : Bridge)
    (e : effect) :
  e ∈ snd (fst (loop opts inputs st)) ->
  e <> SockClose /\ e <> LoopStop.
Proof.
  intros He.
  apply loop_out_origin in He
    as [(name & age & online & He) | [(name & m & He) | (name & He)]].
  - unfold publish_meta in He. rewrite !elem_of_cons, elem_of_nil in He.
    destruct He as [-> | [-> | []]]; split; discriminate.
  - unfold publish_state in He. apply list_elem_of_singleton in He. subst e.
    split; discriminate.
  - apply publish_discovery_retained in He.
    split; intros ->; discriminate He.
Qed.

Lemma loop_only_publishes_example :
  Publish (STATE_TOPIC_FORMAT "kitchen") (Dumps (json_of_measurement measurement_A)) false
    <> SockClose
  /\ Publish (STATE_TOPIC_FORMAT "kitchen") (Dumps (json_of_measurement measurement_A)) false
       <> LoopStop.
Proof.
  apply (loop_only_publishes demo_opts [(103%Q, Datagram scenario_A "10.0.0.5")]
           (initial demo_opts 100)).
  apply list_elem_of_In. vm_compute. do 9 right. left. reflexivity.
Defined.

(** X16.  All addresses without an entry in [addr_to_name] share the one
    session "am7p": after a valid packet from one of them, a valid packet
    from another one publishes its measurement on the state topic of "am7p"
    and no second discovery. *)
Theorem unmapped_addresses_share_session (opts : Options) (now now2 : Q)
    (data data2 : list byte) (ip ip2 : string) (m m2 : Measurement)
    (st : Bridge) (mid : list (Q * recv)) :
  addr_to_name opts !! ip = None ->
  addr_to_name opts !! ip2 = None ->
  parse_packet data = Returned (Some m) ->
  parse_packet data2 = Returned (Some m2) ->
  let st1 := fst (fst (iteration opts now (Datagram data ip) st)) in
  let st2 := fst (fst (loop opts mid st1)) in
  snd (fst (ingest opts now2 (Datagram data2 ip2) st2))
    = [Publish (STATE_TOPIC_FORMAT "am7p") (Dumps (json_of_measurement m2)) false].
Proof.
  intros Hip Hip2 Hm Hm2 st1 st2.
  assert (Hn : get_name_by_ip ip (addr_to_name opts) = "am7p")
    by (unfold get_name_by_ip; now rewrite Hip).
  assert (Hn2 : get_name_by_ip ip2 (addr_to_name opts) = "am7p")
    by (unfold get_name_by_ip; now rewrite Hip2).
  assert (Hk : "am7p" ∈ known_names st2).
  { apply loop_known_mono, iteration_known_names. right.
    apply decodes_for_spec. eauto. }
  rewrite (ingest_decoded opts now2 data2 ip2 m2 st2 Hm2). cbn [fst snd].
  rewrite Hn2, (proj2 (not_known_false "am7p" st2) Hk). reflexivity.
Qed.

Lemma unmapped_addresses_share_session_example :
  snd (fst (ingest demo_opts 103 (Datagram scenario_A "10.0.0.7")
              (fst (fst (loop demo_opts []
                           (fst (fst (iteration demo_opts 102
                                        (Datagram scenario_A "10.0.0.6")
                                        (initial demo_opts 100)))))))))
    = [Publish (STATE_TOPIC_FORMAT "am7p") (Dumps (json_of_measurement measurement_A)) false].
Proof.
  apply (unmapped_addresses_share_session demo_opts 102 103 scenario_A scenario_A
           "10.0.0.6" "10.0.0.7" measurement_A measurement_A (initial demo_opts 100) []).
  - vm_compute. reflexivity.
  - vm_compute. reflexivity.
  - vm_compute. reflexivity.
  - vm_compute. reflexivity.
Defined.

(** X17.  The age that the [finally] block reports for a known name is the
    age that [evaluate] gives at the exit time, whatever the timeout. *)
Theorem shutdown_age (st : Bridge) (exit_time : Q) (timeout : Z) (name : string) :
  name ∈ known_names st ->
  on_topic (META_TOPIC_FORMAT name) (finally st exit_time)
    = [Publish (META_TOPIC_FORMAT name)
         (Text (str_int (fst (evaluate (last_packet_ts st !! name) exit_time timeout))))
         true].
Proof.
  intros Hk. unfold finally. rewrite on_topic_app.
  rewrite (on_topic_flat_map _ _ name).
  - rewrite on_topic_META_publish_meta.
    assert (Hnil : on_topic (META_TOPIC_FORMAT name) [SockClose; LoopStop] = []).
    { apply on_topic_none. intros e He. rewrite !elem_of_cons, elem_of_nil in He.
      destruct He as [-> | [-> | []]]; discriminate. }
    rewrite Hnil. reflexivity.
  - apply NoDup_elements.
  - apply elem_of_elements, Hk.
  - intros n e. apply on_topic_META_report.
Qed.

Lemma shutdown_age_example :
  on_topic (META_TOPIC_FORMAT "kitchen") (finally epoch_state 7)
    = [Publish (META_TOPIC_FORMAT "kitchen")
         (Text (str_int (fst (evaluate (last_packet_ts epoch_state !! "kitchen") 7 10))))
         true].
Proof.
  apply (shutdown_age epoch_state 7 10 "kitchen").
  apply (bool_decide_unpack _). vm_compute. exact I.
Defined.

End Sessions.
